(** * Song request pipeline of rconsole-plugin (src/utils/trans-strategy.js)

    A shallow embedding of the [songRequest] plugin class: the region
    selector, the keyword search and its merge with the personal library,
    the credential probe, the delivery chain, the file-readiness watcher and
    the cloud upload.  Asynchronous methods become computations over an
    explicit world (the key-value cache, the local download directory, the
    module-level [FileSuffix], the persisted account id and the log of
    replies); a rejected promise or a thrown [TypeError] is the [Raised]
    outcome.  Answers of remote services and of the file system are
    arguments of the computations. *)

From stdpp Require Import base strings pretty list gmap.
From Stdlib Require Import ZArith Lia.

Local Open Scope string_scope.
Local Open Scope list_scope.
Local Open Scope Z_scope.

(** ** Values shared by the methods *)

(** Result of running an asynchronous method: it resolves with a value or
    rejects (an exception escapes it). *)
Inductive outcome (A : Type) : Type :=
  | Returned (a : A)
  | Raised (err : string).
Arguments Returned {A} a.
Arguments Raised {A} err.

(** The value stored under REDIS_YUNZAI_ISOVERSEA. *)
Record RegionFlag : Type := { os : bool }.

(** An entry of [musicDate.data]; [singerName] and [cover] may be
    [undefined]. *)
Record Track : Type := {
  id : Z;
  songName : string;
  singerName : option string;
  duration : string;
  cover : option string
}.

(** An entry of the list stored under REDIS_YUNZAI_SONGINFO. *)
Record Session : Type := {
  group_id : Z;
  data : list Track
}.

(** An entry of the list stored under REDIS_YUNZAI_CLOUDSONGLIST, as
    [getCloudSong] builds it. *)
Record CloudSong : Type := {
  c_songName : string;
  c_id : Z;
  c_singerName : string;
  c_duration : string
}.

(** What [e.reply] was called with: a text, or a screenshot of a template. *)
Inductive Reply : Type :=
  | ReplyText (text : string)
  | ReplyImg (template : string)
  | ReplyRecord (path : string).

(** A value that is a string where the code expects one, or [undefined]
    (the property is missing) or [null] (JSON's null): what
    [resp.data.data?.[0]?.type] gives and [FileSuffix] holds. *)
Inductive JsString : Type :=
  | JsUndefined
  | JsNull
  | JsStr (s : string).

#[global] Instance JsString_eq_dec : EqDecision JsString.
Proof. solve_decision. Defined.

(** The mutable state the methods share. *)
Record World : Type := {
  redis_isOversea : option RegionFlag;
  redis_songInfo : option (list Session);
  redis_cloudSongList : option (list CloudSong);
  files : gset string;
  FileSuffix : JsString;
  neteaseUserId : option Z;
  replies : list Reply
}.

(** [let FileSuffix = 'flac'], an empty cache and an empty directory. *)
Definition initial_world : World :=
  {| redis_isOversea := None; redis_songInfo := None;
     redis_cloudSongList := None; files := ∅;
     FileSuffix := JsStr "flac"; neteaseUserId := None; replies := [] |}.

Definition set_isOversea (v : option RegionFlag) (w : World) : World :=
  {| redis_isOversea := v; redis_songInfo := redis_songInfo w;
     redis_cloudSongList := redis_cloudSongList w; files := files w;
     FileSuffix := FileSuffix w; neteaseUserId := neteaseUserId w;
     replies := replies w |}.

Definition set_songInfo (v : option (list Session)) (w : World) : World :=
  {| redis_isOversea := redis_isOversea w; redis_songInfo := v;
     redis_cloudSongList := redis_cloudSongList w; files := files w;
     FileSuffix := FileSuffix w; neteaseUserId := neteaseUserId w;
     replies := replies w |}.

Definition set_cloudSongList (v : option (list CloudSong)) (w : World) : World :=
  {| redis_isOversea := redis_isOversea w; redis_songInfo := redis_songInfo w;
     redis_cloudSongList := v; files := files w;
     FileSuffix := FileSuffix w; neteaseUserId := neteaseUserId w;
     replies := replies w |}.

Definition set_files (v : gset string) (w : World) : World :=
  {| redis_isOversea := redis_isOversea w; redis_songInfo := redis_songInfo w;
     redis_cloudSongList := redis_cloudSongList w; files := v;
     FileSuffix := FileSuffix w; neteaseUserId := neteaseUserId w;
     replies := replies w |}.

Definition set_FileSuffix (v : JsString) (w : World) : World :=
  {| redis_isOversea := redis_isOversea w; redis_songInfo := redis_songInfo w;
     redis_cloudSongList := redis_cloudSongList w; files := files w;
     FileSuffix := v; neteaseUserId := neteaseUserId w;
     replies := replies w |}.

Definition set_neteaseUserId (v : option Z) (w : World) : World :=
  {| redis_isOversea := redis_isOversea w; redis_songInfo := redis_songInfo w;
     redis_cloudSongList := redis_cloudSongList w; files := files w;
     FileSuffix := FileSuffix w; neteaseUserId := v;
     replies := replies w |}.

Definition add_reply (r : Reply) (w : World) : World :=
  {| redis_isOversea := redis_isOversea w; redis_songInfo := redis_songInfo w;
     redis_cloudSongList := redis_cloudSongList w; files := files w;
     FileSuffix := FileSuffix w; neteaseUserId := neteaseUserId w;
     replies := replies w ++ [r] |}.

(** ** The monad of asynchronous methods

    State is kept when a method rejects: what it wrote before the exception
    stays written. *)
Definition M (A : Type) : Type := World -> outcome A * World.

Definition ret {A} (a : A) : M A := fun w => (Returned a, w).

Definition raise {A} (err : string) : M A := fun w => (Raised err, w).

Definition bind {A B} (m : M A) (k : A -> M B) : M B :=
  fun w =>
    match m w with
    | (Returned a, w') => k a w'
    | (Raised err, w') => (Raised err, w')
    end.

Notation "'let*' x ':=' m 'in' k" := (bind m (fun x => k))
  (at level 10, x name, m at level 100, k at level 200).
Notation "'run' m 'in' k" := (bind m (fun _ => k))
  (at level 10, m at level 100, k at level 200).

Definition modify (f : World -> World) : M unit := fun w => (Returned tt, f w).

Definition get {A} (f : World -> A) : M A := fun w => (Returned (f w), w).

(** [try { m } catch (error) { h }]. *)
Definition try_catch {A} (m : M A) (h : string -> M A) : M A :=
  fun w =>
    match m w with
    | (Returned a, w') => (Returned a, w')
    | (Raised err, w') => h err w'
    end.

(** [try { m } finally { f }]. *)
Definition try_finally {A} (m : M A) (f : M unit) : M A :=
  fun w =>
    match m w with
    | (Returned a, w') =>
        match f w' with
        | (Returned _, w'') => (Returned a, w'')
        | (Raised err, w'') => (Raised err, w'')
        end
    | (Raised err, w') =>
        match f w' with
        | (Returned _, w'') => (Raised err, w'')
        | (Raised err', w'') => (Raised err', w'')
        end
    end.

(** A promise chain that is started and not awaited: the caller goes on
    whatever it does, its effects stay. *)
Definition detached {A} (m : M A) : M unit :=
  fun w => (Returned tt, snd (m w)).

Definition reply (r : Reply) : M unit := modify (add_reply r).

(** What string concatenation ([+]) makes of such a value. *)
Definition js_str (v : JsString) : string :=
  match v with
  | JsStr s => s
  | JsUndefined => "undefined"
  | JsNull => "null"
  end.

(** The line feed of a template literal; 10 is its code. *)
Definition newline : string := String (Ascii.ascii_of_nat 10) "".

(** [s.includes(sub)]. *)
Fixpoint includes (s sub : string) : bool :=
  String.prefix sub s ||
  match s with
  | EmptyString => false
  | String _ rest => includes rest sub
  end.

(** ** 4.1 Region selector *)

(** [isOverseasServer] (lines 803-813): [redisExistKey], [redisSetKey] and
    [redisGetKey] on the key REDIS_YUNZAI_ISOVERSEA. *)
Definition isOverseasServer : M bool :=
  let* exists_key := get (fun w => bool_decide (is_Some (redis_isOversea w))) in
  if negb exists_key then
    run modify (set_isOversea (Some {| os := false |})) in
    ret true
  else
    let* flag := get redis_isOversea in
    match flag with
    | Some f => ret (os f)
    | None => raise "TypeError"
    end.

(** ** 4.6 File-readiness watcher *)

(** One poll of the watched path: [checkFileExists] answers false, or
    [fs.statSync] throws, or it gives the size. *)
Inductive FileObs : Type :=
  | Absent
  | StatError
  | Size (sz : Z).

(** The loop variables of [waitForFile]. *)
Record WatchState : Type := {
  attempts : nat;
  lastSize : Z;
  stableChecks : nat
}.

Definition requiredStableChecks : nat := 2.

(** The [while (attempts < maxAttempts)] loop (lines 1045-1074); [remaining]
    is [maxAttempts - attempts], [obs k] is what poll number [k] sees. *)
Fixpoint waitForFile_loop (obs : nat -> FileObs) (remaining : nat)
    (st : WatchState) : bool * WatchState :=
  match remaining with
  | O => (false, st)
  | S remaining' =>
      match obs (attempts st) with
      | Size currentSize =>
          let stable :=
            if (0 <? currentSize) && (currentSize =? lastSize st)
            then S (stableChecks st) else O in
          if (requiredStableChecks <=? stable)%nat then
            (true, {| attempts := attempts st; lastSize := currentSize;
                      stableChecks := stable |})
          else
            waitForFile_loop obs remaining'
              {| attempts := S (attempts st); lastSize := currentSize;
                 stableChecks := stable |}
      | Absent | StatError =>
          waitForFile_loop obs remaining'
            {| attempts := S (attempts st); lastSize := -1;
               stableChecks := O |}
      end
  end.

Definition watch_start : WatchState :=
  {| attempts := O; lastSize := -1; stableChecks := O |}.

(** [const maxAttempts = timeoutSeconds].  The timeout is a whole number of
    seconds here, as in every call of the file (they all leave it to its
    default, 120). *)
Definition maxAttempts (timeoutSeconds : Z) : Z := timeoutSeconds.

(** The loop runs from [attempts = 0] while [attempts < maxAttempts]: a
    whole [maxAttempts] grants that many polls, and [waitForFile_loop]
    itself is stated on the number of polls granted. *)
Definition waitForFile_run (obs : nat -> FileObs) (timeoutSeconds : Z)
    : bool * WatchState :=
  waitForFile_loop obs (Z.to_nat (maxAttempts timeoutSeconds)) watch_start.

(** Milliseconds spent in [setTimeout(resolve, 500)]: one sleep per
    completed attempt. *)
Definition slept_ms (st : WatchState) : Z := 500 * Z.of_nat (attempts st).

Definition default_timeoutSeconds : Z := 120.

(** [waitForFile(path, e, timeoutSeconds)]: the result of the loop, and the
    reply on a timeout. *)
Definition waitForFile (obs : nat -> FileObs) (timeoutSeconds : Z) : M bool :=
  if fst (waitForFile_run obs timeoutSeconds) then ret true
  else
    run reply (ReplyText ("等待文件下载" +:+ pretty (maxAttempts timeoutSeconds)
                          +:+ "秒超时，上传任务已取消。")) in
    ret false.

(** ** Configuration, events and answers of the remote services *)

(** The fields the constructor copies from [config.getConfig("tools")]. *)
Record Config : Type := {
  useNeteaseSongRequest : bool;
  useLocalNeteaseAPI : bool;
  neteaseCloudAPIServer : string;
  neteaseCloudAudioQuality : string;
  songRequestMaxList : Z;
  isSendVocal : bool;
  defaultPath : string
}.

(** [e.msg] as the two regular expressions of [pickSong] read it:
    [/^#点歌\s+(.+)/] gives the keyword, [/^#听(\d+)/] the number. *)
Inductive Command : Type :=
  | CmdSearch (songKeyWord : string)
  | CmdPlay (number : nat)
  | CmdOther.

Record Event : Type := {
  e_group_id : option Z;
  e_user_id : Z;
  e_msg : Command
}.

(** [if (!group_id) return]: [undefined] and 0 are falsy. *)
Definition truthy_group (e : Event) : option Z :=
  match e_group_id e with
  | Some g => if g =? 0 then None else Some g
  | None => None
  end.

(** One page of [/user/cloud]. *)
Record CloudEntry : Type := {
  songId : Z;
  ce_songName : string;
  artist : option string
}.

Inductive CloudPage : Type :=
  | PageFailed
  | PageOk (entries : list CloudEntry) (hasMore : bool).

(** An entry of [res.data.result.songs] of [/search]. *)
Record SearchSong : Type := {
  s_id : Z;
  s_name : string;
  s_artists : list string;
  s_duration : Z
}.

(** The answer of [/search]: the request rejects (or carries no [result]),
    or [result.songs] is an array or is missing. *)
Inductive SearchResponse : Type :=
  | SearchFailed
  | SearchOk (songs : option (list SearchSong)).

(** An entry of [res.data.songs] of [/song/detail]. *)
Record SongDetail : Type := {
  d_id : Z;
  d_name : string;
  d_ar : list string;
  d_picUrl : string
}.

Inductive DetailResponse : Type :=
  | DetailFailed
  | DetailOk (details : list SongDetail).

(** [/login/status]: the request rejects, or [res.data.data] is missing, or
    it carries a profile, or a null one. *)
Record Profile : Type := { userId : option Z }.

Inductive LoginResponse : Type :=
  | LoginFailed
  | LoginOk (payload : option (option Profile)).

Inductive CookieType : Type := CkSong | CkCloud.

(** [array.findIndex(p)]; [None] stands for -1. *)
Fixpoint findIndex {A} (p : A -> bool) (l : list A) : option nat :=
  match l with
  | [] => None
  | x :: rest => if p x then Some O else S <$> findIndex p rest
  end.

(** [array[i]] for a number [i]: [undefined] out of the range. *)
Definition js_index {A} (l : list A) (i : Z) : option A :=
  if i <? 0 then None else l !! Z.to_nat i.

Section SongRequest.

(** The instance's configuration and what the module imports from files that
    are not part of this development: the two catalog base URLs of
    constants/tools.js and the formatters of utils/other.js. *)
Variable cfg : Config.
Variable NETEASE_SONG_DOWNLOAD NETEASE_API_CN : string.
Variable formatTime : Z -> string.
Variable toGBorTB : Z -> string.

(** [pickApi] (lines 816-826). *)
Definition pickApi : M string :=
  let* isOversea := isOverseasServer in
  if useLocalNeteaseAPI cfg then ret (neteaseCloudAPIServer cfg)
  else ret (if isOversea then NETEASE_SONG_DOWNLOAD else NETEASE_API_CN).

(** ** 4.4 Credential quality gate *)

(** [checkCooike(statusUrl, cookieType)] (lines 829-851). *)
Definition checkCooike (login : LoginResponse) (cookieType : CookieType) : M bool :=
  match login with
  | LoginFailed => raise "AxiosError"
  | LoginOk None => raise "TypeError"
  | LoginOk (Some userInfo) =>
      run (match cookieType with
           | CkSong =>
               match userInfo with
               | Some profile => modify (set_neteaseUserId (userId profile))
               | None => raise "TypeError"
               end
           | CkCloud => ret tt
           end) in
      match userInfo with
      | Some _ => ret true
      | None => ret false
      end
  end.

(** ** 4.3 Personal library and search merge *)

Definition cloudSongOf (entry : CloudEntry) : CloudSong :=
  {| c_songName := ce_songName entry; c_id := songId entry;
     c_singerName := match artist entry with
                     | Some a => if String.eqb a "" then "喵喵~" else a
                     | None => "喵喵~"
                     end;
     c_duration := "云盘" |}.

(** The [while (true)] loop of [getCloudSong] on a listing that ends: it
    stops at a page without [hasMore] and at a failed request; a request
    past the answers given in [pages] fails.  A listing whose pages all say
    [hasMore] keeps the loop running and is no list of answers; it is
    [fetchCloudPages_upto] below that has it. *)
Fixpoint fetchCloudPages (pages : list CloudPage) (songList : list CloudSong)
    : list CloudSong :=
  match pages with
  | [] => songList
  | PageFailed :: _ => songList
  | PageOk entries hasMore :: rest =>
      let songList' := songList ++ map cloudSongOf entries in
      if hasMore then fetchCloudPages rest songList' else songList'
  end.

(** The same loop on a listing that need not end: [answer k] is what the
    request number [k] meets, [fuel] bounds the requests looked at, and
    [None] says that the loop is still running after them. *)
Fixpoint fetchCloudPages_upto (answer : nat -> CloudPage) (fuel k : nat)
    (songList : list CloudSong) : option (list CloudSong) :=
  match fuel with
  | O => None
  | S fuel' =>
      match answer k with
      | PageFailed => Some songList
      | PageOk entries hasMore =>
          let songList' := songList ++ map cloudSongOf entries in
          if hasMore then fetchCloudPages_upto answer fuel' (S k) songList'
          else Some songList'
      end
  end.

(** [getCloudSong(e, cloudUpdate)] (lines 678-715). *)
Definition getCloudSong (pages : list CloudPage) (cloudUpdate : bool)
    : M (list CloudSong) :=
  let* stored := get redis_cloudSongList in
  let songList := default [] stored in
  if bool_decide (songList = []) || cloudUpdate then
    run pickApi in
    let songList' := fetchCloudPages pages songList in
    run modify (set_cloudSongList (Some songList')) in
    ret songList'
  else ret songList.

(** The filter of lines 395-397. *)
Definition matchesKeyword (songKeyWord : string) (s : CloudSong) : bool :=
  includes (c_songName s) songKeyWord || includes (c_singerName s) songKeyWord
  || String.eqb (c_songName s) songKeyWord
  || String.eqb (c_singerName s) songKeyWord.

Definition matchedSongs (songKeyWord : string) (cloudSongList : list CloudSong)
    : list CloudSong :=
  List.filter (matchesKeyword songKeyWord) cloudSongList.

Definition songListCount (matched : list CloudSong) : Z :=
  if Z.of_nat (length matched) >=? songRequestMaxList cfg
  then songRequestMaxList cfg else Z.of_nat (length matched).

(** The [limit] sent to [/search]. *)
Definition searchCount (matched : list CloudSong) : Z :=
  songRequestMaxList cfg - songListCount matched.

Definition cloudTrack (s : CloudSong) : Track :=
  {| id := c_id s; songName := c_songName s;
     singerName := Some (c_singerName s); duration := c_duration s;
     cover := None |}.

Definition catalogTrack (info : SearchSong) : Track :=
  {| id := s_id info; songName := s_name info;
     singerName := head (s_artists info);
     duration := formatTime (s_duration info); cover := None |}.

(** The loop of lines 401-408. *)
Definition pushMatched (matched : list CloudSong) : list Track :=
  map cloudTrack (take (Z.to_nat (songListCount matched)) matched).

(** The loop of lines 417-428; iterating a missing [songs] throws and the
    [catch] only logs. *)
Definition pushCatalog (songs : option (list SearchSong)) (data0 : list Track)
    : list Track :=
  match songs with
  | Some l => data0 ++ map catalogTrack l
  | None => data0
  end.

Definition defaultCoverId : string := "109951169484091680.jpg".

Definition coverOf (d : SongDetail) : string :=
  if includes (d_picUrl d) defaultCoverId then "def" else d_picUrl d.

Definition renamed (d : SongDetail) (t : Track) : Track :=
  {| id := id t; songName := d_name d; singerName := head (d_ar d);
     duration := duration t; cover := cover t |}.

(** Lines 444-448: the first entry with the detail's id is renamed. *)
Definition correctEntry (d : SongDetail) (data0 : list Track) : list Track :=
  match findIndex (fun item => id item =? d_id d) data0 with
  | Some musicDataIndex => alter (renamed d) musicDataIndex data0
  | None => data0
  end.

(** The loop of lines 437-449. *)
Definition detailPass (details : list SongDetail) (data0 : list Track)
    : gmap Z string * list Track :=
  foldl (fun acc d => (<[d_id d := coverOf d]> (fst acc), correctEntry d (snd acc)))
        (∅, data0) details.

Definition withCover (imgList : gmap Z string) (t : Track) : Track :=
  match imgList !! id t with
  | Some c =>
      if String.eqb c "" then t
      else {| id := id t; songName := songName t; singerName := singerName t;
              duration := duration t; cover := Some c |}
  | None => t
  end.

(** Lines 436-455. *)
Definition applyDetail (details : list SongDetail) (data0 : list Track)
    : list Track :=
  let acc := detailPass details data0 in
  map (withCover (fst acc)) (snd acc).

(** [musicDate.data] once the search and the detail lookup are through. *)
Definition mergedList (matched : list CloudSong) (songs : option (list SearchSong))
    (details : list SongDetail) : list Track :=
  applyDetail details (pushCatalog songs (pushMatched matched)).

(** Lines 457-461. *)
Definition upsertSession (saveId : option nat) (musicDate : Session)
    (songInfo : list Session) : list Session :=
  match saveId with
  | None => songInfo ++ [musicDate]
  | Some i => <[i := musicDate]> songInfo
  end.

(** [pickSong], the branch of [#点歌 keyword] (lines 388-469), from the
    answers of the cloud pages, of [/search] and of [/song/detail]. *)
Definition pickSong_search (g : Z) (songKeyWord : string)
    (songInfo : list Session) (saveId : option nat)
    (pages : list CloudPage) (search : SearchResponse)
    (detail : DetailResponse) : M unit :=
  let* cloudSongList := getCloudSong pages false in
  let matched := matchedSongs songKeyWord cloudSongList in
  let data0 := pushMatched matched in
  match search with
  | SearchFailed => raise "AxiosError"
  | SearchOk songs =>
      if bool_decide (is_Some songs) || bool_decide (is_Some (head data0)) then
        let data1 := pushCatalog songs data0 in
        match detail with
        | DetailFailed => raise "AxiosError"
        | DetailOk details =>
            let musicDate := {| group_id := g; data := applyDetail details data1 |} in
            run modify (set_songInfo (Some (upsertSession saveId musicDate songInfo))) in
            reply (ReplyImg "pick-song")
        end
      else reply (ReplyText "暂未找到你想听的歌哦~")
  end.

(** ** 4.5 Delivery *)

(** The first entry of [resp.data.data] of [/song/url/v1]. *)
Record UrlData : Type := {
  u_url : option string;
  u_level : option string;
  u_size : option Z;
  u_type : JsString
}.

Inductive UrlResponse : Type :=
  | UrlFailed
  | UrlOk (first : option UrlData).

(** [/song/wiki/summary]: the labels lines 903-922 collect, or the request
    rejects or the payload is shallower than what those lines dereference. *)
Inductive WikiResponse : Type :=
  | WikiFailed
  | WikiOk (labels : list string).

(** The public resolver NETEASE_TEMP_API. *)
Inductive TempResponse : Type :=
  | TempFailed
  | TempOk (music_url : option string).

(** What one delivery meets: the three answers, whether [sendMusicCard]
    resolves, the path [downloadAudio] resolves with (or its failure) and
    whether the host takes the file. *)
Record DeliveryEnv : Type := {
  urlResp : UrlResponse;
  wikiResp : WikiResponse;
  tempResp : TempResponse;
  cardOk : bool;
  download : option string;
  groupFileOk : bool
}.

(** [checkAndRemoveFile(path)] of utils/file.js. *)
Definition checkAndRemoveFile (path : string) : M unit :=
  modify (fun w => set_files (files w ∖ {[path]}) w).

(** [uploadGroupFile(e, path)]: the host accepts the file or throws. *)
Definition uploadGroupFile (accepted : bool) : M unit :=
  if accepted then ret tt else raise "SendError".

(** [downloadAudio] of utils/common.js: it resolves with the path of the
    file it wrote, or rejects. *)
Definition downloadAudio (result : option string) : M string :=
  match result with
  | Some path =>
      run modify (fun w => set_files (files w ∪ {[path]}) w) in
      ret path
  | None => raise "DownloadError"
  end.

(** [musicTempApi] (lines 987-1003). *)
Definition musicTempApi (temp : TempResponse) : M (option string) :=
  match temp with
  | TempFailed => raise "AxiosError"
  | TempOk music_url =>
      run reply (ReplyImg "neteaseMusicInfo") in
      ret music_url
  end.

(** The [then] of [downloadAudio] (lines 965-980). *)
Definition afterDownload (env : DeliveryEnv) (musicExt : JsString)
    (cardSentSuccessfully : bool) (path : string) : M unit :=
  if negb cardSentSuccessfully then
    try_finally
      (run uploadGroupFile (groupFileOk env) in
       if negb (bool_decide (musicExt = JsStr "mp4")) && isSendVocal cfg
       then reply (ReplyRecord path) else ret tt)
      (checkAndRemoveFile path)
  else ret tt.

(** Lines 949-983: card, download, raw transfer; the [catch] only logs. *)
Definition deliver (env : DeliveryEnv) (musicExt : JsString) : M unit :=
  let cardSentSuccessfully := cardOk env in
  try_catch
    (let* path := downloadAudio (download env) in
     afterDownload env musicExt cardSentSuccessfully path)
    (fun _ => ret tt).

(** [||] on a string that may be missing: the empty string is falsy. *)
Definition nonempty (v : option string) : option string :=
  match v with
  | Some s => if String.eqb s "" then None else Some s
  | None => None
  end.

(** Lines 858-946 of [neteasePlay]: the answer of [/song/url/v1], the title
    from [songInfo[pickNumber]], the wiki lookup and the announcement, by the
    public resolver when the credential is not valid or no URL came.  It
    resolves with the URL to download and the extension [musicExt].  The
    content of the rendered card ([musicInfo]) is not tracked, only that it
    is replied. *)
Definition resolveTrack (env : DeliveryEnv) (songInfo : list Track)
    (pickNumber : Z) (isCkExpired : bool) : M (option string * JsString) :=
  match urlResp env with
  | UrlFailed => raise "AxiosError"
  | UrlOk first =>
      let url := nonempty (first ≫= u_url) in
      match js_index songInfo pickNumber with
      | None => raise "TypeError"
      | Some song =>
          match wikiResp env with
          | WikiFailed => raise "WikiError"
          | WikiOk labels =>
              let* url' :=
                (if negb isCkExpired || bool_decide (url = None)
                 then musicTempApi (tempResp env)
                 else run reply (ReplyImg "neteaseMusicInfo") in ret url) in
              let musicExt :=
                match first with
                | Some d => u_type d
                | None => JsUndefined
                end in
              ret (url', musicExt)
          end
      end
  end.

(** The promise chain of [neteasePlay] (lines 854-985): [FileSuffix =
    musicExt] at line 947, then card, download and transfer. *)
Definition neteasePlay (env : DeliveryEnv) (songInfo : list Track)
    (pickNumber : Z) (isCkExpired isCloudSong : bool) : M unit :=
  let* resolved := resolveTrack env songInfo pickNumber isCkExpired in
  let musicExt := snd resolved in
  run modify (set_FileSuffix musicExt) in
  deliver env musicExt.

(** What a [#听N] command meets. *)
Record PlayEnv : Type := {
  login : LoginResponse;
  delivery : DeliveryEnv
}.

(** [pickSong], the branch of [#听N] (lines 470-490). *)
Definition pickSong_play (g : Z) (number : nat) (env : PlayEnv) : M unit :=
  let pickNumber := Z.of_nat number - 1 in
  let* stored := get redis_songInfo in
  match stored with
  | None => raise "TypeError"
  | Some songInfo =>
      let saveId := findIndex (fun item => group_id item =? g) songInfo in
      match saveId ≫= (fun i => songInfo !! i) with
      | None => raise "TypeError"
      | Some session =>
          match js_index (data session) pickNumber with
          | None => raise "TypeError"
          | Some selectedSong =>
              let isCloudSong := String.eqb (duration selectedSong) "云盘" in
              let* isCkExpired :=
                checkCooike (login env) (if isCloudSong then CkCloud else CkSong) in
              detached (neteasePlay (delivery env) (data session) pickNumber
                          isCkExpired isCloudSong)
          end
      end
  end.

(** [pickSong(e)] (lines 371-491); [Some false] is [return false], [None]
    is [undefined].  The test of line 470 compares the cached value with a
    fresh array and always passes.  The method runs here on its own: nothing
    else touches the world between its read of line 383 and its write of
    line 462; [pickSong_among] below lets other tasks in. *)
Definition pickSong (e : Event) (pages : list CloudPage)
    (search : SearchResponse) (detail : DetailResponse) (env : PlayEnv)
    : M (option bool) :=
  if negb (useNeteaseSongRequest cfg) then ret (Some false)
  else
    run pickApi in
    match truthy_group e with
    | None => ret None
    | Some g =>
        let* stored := get redis_songInfo in
        let songInfo := default [] stored in
        let saveId := findIndex (fun item => group_id item =? g) songInfo in
        match e_msg e with
        | CmdSearch songKeyWord =>
            run pickSong_search g songKeyWord songInfo saveId pages search detail in
            ret None
        | CmdPlay number =>
            run pickSong_play g number env in
            ret None
        | CmdOther => ret None
        end
    end.

(** The branch of [#点歌 keyword] with the other tasks of the process: the
    method gives way at each [await], and [duringSearch] and [duringDetail]
    are what the others do to the world while it awaits the search (line
    411) and the detail lookup (line 431). *)
Definition pickSong_search_among (duringSearch duringDetail : World -> World)
    (g : Z) (songKeyWord : string)
    (songInfo : list Session) (saveId : option nat)
    (pages : list CloudPage) (search : SearchResponse)
    (detail : DetailResponse) : M unit :=
  let* cloudSongList := getCloudSong pages false in
  let matched := matchedSongs songKeyWord cloudSongList in
  let data0 := pushMatched matched in
  run modify duringSearch in
  match search with
  | SearchFailed => raise "AxiosError"
  | SearchOk songs =>
      if bool_decide (is_Some songs) || bool_decide (is_Some (head data0)) then
        let data1 := pushCatalog songs data0 in
        run modify duringDetail in
        match detail with
        | DetailFailed => raise "AxiosError"
        | DetailOk details =>
            let musicDate := {| group_id := g; data := applyDetail details data1 |} in
            run modify (set_songInfo (Some (upsertSession saveId musicDate songInfo))) in
            reply (ReplyImg "pick-song")
        end
      else reply (ReplyText "暂未找到你想听的歌哦~")
  end.

(** [pickSong(e)] with the other tasks of the process. *)
Definition pickSong_among (duringSearch duringDetail : World -> World)
    (e : Event) (pages : list CloudPage)
    (search : SearchResponse) (detail : DetailResponse) (env : PlayEnv)
    : M (option bool) :=
  if negb (useNeteaseSongRequest cfg) then ret (Some false)
  else
    run pickApi in
    match truthy_group e with
    | None => ret None
    | Some g =>
        let* stored := get redis_songInfo in
        let songInfo := default [] stored in
        let saveId := findIndex (fun item => group_id item =? g) songInfo in
        match e_msg e with
        | CmdSearch songKeyWord =>
            run pickSong_search_among duringSearch duringDetail g songKeyWord
                  songInfo saveId pages search detail in
            ret None
        | CmdPlay number =>
            run pickSong_play g number env in
            ret None
        | CmdOther => ret None
        end
    end.

(** ** 4.7 Upload commands *)

(** The quoted share card as the regular expressions of [upLoad] and
    [uploadCloud] read it: the song id when one of the four patterns
    matches, the title and the description. *)
Record ShareCard : Type := {
  sc_id : option string;
  sc_title : option string;
  sc_desc : option string
}.

(** [getCurDownloadPath(e)] (lines 1010-1012). *)
Definition getCurDownloadPath (e : Event) : string :=
  defaultPath cfg +:+
  pretty (match truthy_group e with Some g => g | None => e_user_id e end).

(** Lines 600 and 630. *)
Definition uploadPath (e : Event) (desc title : string) : M string :=
  let* suffix := get FileSuffix in
  ret (getCurDownloadPath e +:+ "/" +:+ desc +:+ "-" +:+ title +:+ "."
       +:+ js_str suffix).

(** [upLoad(e)] (lines 587-613); [obs path k] is what poll [k] of [path]
    sees. *)
Definition upLoad (e : Event) (card : ShareCard)
    (obs : string -> nat -> FileObs) (accepted : bool) : M unit :=
  let id_ := default "" (sc_id card) in
  match sc_title card, sc_desc card with
  | Some title, Some desc =>
      if String.eqb id_ "" then ret tt
      else
        let* path := uploadPath e desc title in
        let* fileExists := waitForFile (obs path) default_timeoutSeconds in
        if negb fileExists then ret tt
        else
          try_catch
            (run uploadGroupFile accepted in checkAndRemoveFile path)
            (fun _ => ret tt)
  | _, _ => raise "TypeError"
  end.

(** [cleanCloudData] (lines 798-800). *)
Definition cleanCloudData : M unit := modify (set_cloudSongList (Some [])).

(** [/user/cloud] as [myCloud] reads it. *)
Record CloudStat : Type := {
  count : Z;
  size : Z;
  maxSize : Z
}.

(** [myCloud(e)] (lines 551-568); the lines of the reply are separated by
    [newline]. *)
Definition myCloud (stat : option CloudStat) : M unit :=
  run pickApi in
  match stat with
  | Some st =>
      reply (ReplyText ("云盘数据" +:+ newline
                        +:+ "歌曲数量:" +:+ pretty (count st) +:+ newline
                        +:+ "云盘容量:" +:+ toGBorTB (maxSize st) +:+ newline
                        +:+ "已使用容量:" +:+ toGBorTB (size st) +:+ newline
                        +:+ "数据可能有延迟"))
  | None => raise "AxiosError"
  end.

(** [songCloudUpdate(e)] (lines 571-584). *)
Definition songCloudUpdate (pages : list CloudPage) (stat : option CloudStat)
    : M unit :=
  try_catch
    (run cleanCloudData in
     run getCloudSong pages true in
     run reply (ReplyText "更新成功") in
     myCloud stat)
    (fun _ => ret tt).

(** One [POST /cloud] and what follows it: the request rejects, or answers
    with [code] and, when the answer has a [privateCloud], its [songId]; the
    match call resolves or not. *)
Inductive UploadAttempt : Type :=
  | PostFailed
  | PostOk (code : Z) (privateCloud : option Z) (matched : bool).

(** What the refresh started by a successful attempt meets. *)
Record RefreshEnv : Type := {
  r_pages : list CloudPage;
  r_stat : option CloudStat
}.

(** [tryUpload] (lines 635-672): line 651 reads
    [res.data.privateCloud.songId] inside the [try] whose [catch] throws
    again; the failure of the match call is logged only, the refresh is not
    awaited. *)
Definition tryUpload (refresh : RefreshEnv) (attempt : UploadAttempt) : M unit :=
  match attempt with
  | PostFailed => raise "AxiosError"
  | PostOk code privateCloud _ =>
      if code =? 200 then
        match privateCloud with
        | None => raise "TypeError"
        | Some _ => detached (songCloudUpdate (r_pages refresh) (r_stat refresh))
        end
      else raise "上传失败，响应不正确"
  end.

(** Modelled from the spec: [retryAxiosReq] of utils/common.js is not part
    of the sources at hand.  The specification calls it the shared
    retry-with-backoff primitive, which either lets the upload succeed or
    exhausts its retries and fails: the request is run again after a
    failure as long as retries are left, and the last failure is the
    wrapper's own.  [request k] is the run number [k]. *)
Fixpoint retryAxiosReq {A} (request : nat -> M A) (retries : nat) (k : nat)
    : M A :=
  try_catch (request k)
    (fun err =>
       match retries with
       | O => raise err
       | S retries' => retryAxiosReq request retries' (S k)
       end).

(** The number of retries [retryAxiosReq] grants by default. *)
Variable default_retries : nat.

(** [uploadCloud(e)] (lines 616-675). *)
Definition uploadCloud (e : Event) (card : ShareCard)
    (obs : string -> nat -> FileObs) (posts : nat -> UploadAttempt)
    (refresh : RefreshEnv) : M unit :=
  run pickApi in
  match sc_id card, sc_title card, sc_desc card with
  | Some id_, Some title, Some desc =>
      if String.eqb id_ "" then ret tt
      else
        let* path := uploadPath e desc title in
        let* fileExists := waitForFile (obs path) default_timeoutSeconds in
        if negb fileExists then ret tt
        else
          run retryAxiosReq (fun k => tryUpload refresh (posts k))
                default_retries O in
          checkAndRemoveFile path
  | _, _, _ => raise "TypeError"
  end.

End SongRequest.

(** ** Play by keyword and upload of a group file *)

(** Where [getGroupFileUrl] found the file: a local path, or (Napcat) an
    https URL together with what [/\.(.*?)\.(\w+)$/] reads in [file_id] (the
    name and the format) and what [downloadAudio] answers when asked. *)
Inductive GroupFileSource : Type :=
  | LocalFile (cleanPath : string)
  | RemoteFile (url : string) (fileIdMatch : option (string * string))
      (fetched : option string).

(** [splitPaths(cleanPath)[0]] of utils/file.js, and what
    [/^([\s\S]+)\s*-\s*([\s\S]+)$/] reads in the trimmed [baseFileName]: the
    artist and the title, both trimmed. *)
Record SplitPath : Type := {
  dirPath : string;
  extension : string;
  parts : option (string * string)
}.

Section PlayAndDocument.

Variable cfg : Config.
Variable NETEASE_SONG_DOWNLOAD NETEASE_API_CN : string.
Variable formatTime : Z -> string.
Variable toGBorTB : Z -> string.
Variable default_retries : nat.

(** The loop of lines 532-534 of [playSong]: assigning the cover of an
    entry that does not exist throws. *)
Fixpoint coverByIndex (details : list SongDetail) (songInfo : list Track)
    : option (list Track) :=
  match details, songInfo with
  | [], _ => Some songInfo
  | _ :: _, [] => None
  | d :: details', t :: songInfo' =>
      rest ← coverByIndex details' songInfo';
      Some ({| id := id t; songName := songName t; singerName := singerName t;
               duration := duration t; cover := Some (d_picUrl d) |} :: rest)
  end.

(** [playSong(e)] (lines 494-547); [keyword] is what [/^#播放\s*(.+)/]
    captures in [e.msg]. *)
Definition playSong (e : Event) (keyword : option string)
    (search : SearchResponse) (detail : DetailResponse) (env : PlayEnv)
    : M unit :=
  if negb (useNeteaseSongRequest cfg) then ret tt
  else
    match truthy_group e with
    | None => ret tt
    | Some _ =>
        run pickApi cfg NETEASE_SONG_DOWNLOAD NETEASE_API_CN in
        match keyword with
        | None => ret tt
        | Some _ =>
            match search with
            | SearchFailed => raise "AxiosError"
            | SearchOk None => reply (ReplyText "暂未找到你想听的歌哦~")
            | SearchOk (Some songs) =>
                let songInfo := map (catalogTrack formatTime) songs in
                match detail with
                | DetailFailed => raise "AxiosError"
                | DetailOk details =>
                    match coverByIndex details songInfo with
                    | None => raise "TypeError"
                    | Some songInfo' =>
                        match head songInfo' with
                        | None => raise "TypeError"
                        | Some _ =>
                            let* isCkExpired := checkCooike (login env) CkSong in
                            detached (neteasePlay cfg (delivery env) songInfo' 0
                                        isCkExpired false)
                        end
                    end
                end
            end
        end
    end.

(** Lines 720-736 of [getLatestDocument]: the local path of the file. *)
Definition locateGroupFile (e : Event) (source : GroupFileSource) : M string :=
  match source with
  | LocalFile cleanPath => ret cleanPath
  | RemoteFile url fileIdMatch fetched =>
      match fileIdMatch with
      | None => raise "TypeError"
      | Some (songName_, fileFormat) =>
          let* present := get (fun w => bool_decide (url ∈ files w)) in
          if present then
            ret (getCurDownloadPath cfg e +:+ "/" +:+ songName_ +:+ "."
                 +:+ fileFormat)
          else downloadAudio fetched
      end
  end.

(** [fs.renameSync(oldPath, newPath)]: it throws when [oldPath] is not
    there. *)
Definition renameSync (oldPath newPath : string) : M unit :=
  let* present := get (fun w => bool_decide (oldPath ∈ files w)) in
  if present then
    modify (fun w => set_files ((files w ∖ {[oldPath]}) ∪ {[newPath]}) w)
  else raise "ENOENT".

(** The [tryUpload] of [getLatestDocument] (lines 769-790): any answer of
    the POST counts. *)
Definition tryUploadDocument (refresh : RefreshEnv) (attempt : UploadAttempt)
    : M unit :=
  match attempt with
  | PostFailed => raise "AxiosError"
  | PostOk _ _ _ =>
      detached (songCloudUpdate cfg NETEASE_SONG_DOWNLOAD NETEASE_API_CN
                  toGBorTB (r_pages refresh) (r_stat refresh))
  end.

(** [getLatestDocument(e)] (lines 718-794); [split] is what [splitPaths]
    and the pattern of line 741 make of the located path. *)
Definition getLatestDocument (e : Event) (source : GroupFileSource)
    (split : string -> SplitPath) (posts : nat -> UploadAttempt)
    (refresh : RefreshEnv) : M (option bool) :=
  run pickApi cfg NETEASE_SONG_DOWNLOAD NETEASE_API_CN in
  let* cleanPath := locateGroupFile e source in
  match parts (split cleanPath) with
  | None =>
      run reply (ReplyText "请规范上传文件的命名：歌手-歌名，例如：梁静茹-勇气") in
      ret (Some true)
  | Some (artist_, title) =>
      let newFileName :=
        dirPath (split cleanPath) +:+ "/" +:+ title +:+ extension (split cleanPath) in
      let* existing := get (fun w => bool_decide (newFileName ∈ files w)) in
      run (if existing
           then modify (fun w => set_files (files w ∖ {[newFileName]}) w)
           else ret tt) in
      run renameSync cleanPath newFileName in
      run retryAxiosReq (fun k => tryUploadDocument refresh (posts k))
            default_retries O in
      run detached (checkAndRemoveFile newFileName) in
      ret None
  end.

End PlayAndDocument.

(** ** Translation strategies (lines 1-278) *)

(** The fields of the configuration the strategies read; a field may be
    missing. *)
Record TransConfig : Type := {
  xaiBaseURL : option string;
  xaiApiKey : option string;
  xaiModel : option string;
  deeplApiUrls : option string;
  aiBaseURL : option string;
  aiApiKey : option string;
  aiModel : option string
}.

(** [_.isEmpty] on a string that may be missing. *)
Definition isEmpty (v : option string) : bool :=
  match v with
  | None => true
  | Some s => String.eqb s ""
  end.

(** [s.split(",")]; 44 is the code of the comma. *)
Fixpoint split_comma (s : string) : list string :=
  match s with
  | EmptyString => [""]
  | String c rest =>
      if Ascii.eqb c (Ascii.ascii_of_nat 44) then "" :: split_comma rest
      else
        match split_comma rest with
        | piece :: pieces => String c piece :: pieces
        | [] => [String c ""]
        end
  end.

(** [pieces.join(",")]. *)
Fixpoint join_comma (pieces : list string) : string :=
  match pieces with
  | [] => ""
  | [piece] => piece
  | piece :: rest => piece +:+ "," +:+ join_comma rest
  end.

(** The strategy objects with the fields their constructors set. *)
Inductive Strategy : Type :=
  | TencentTranslateStrategy
  | DeeplTranslateStrategy (deeplUrls : list string)
  | GeminiOpenAITranslateStrategy (baseURL apiKey currentModel : option string).

(** The constructor of [DeeplTranslateStrategy] (lines 84-88). *)
Definition new_DeeplTranslateStrategy (config : TransConfig) : outcome Strategy :=
  match deeplApiUrls config with
  | None => Raised "TypeError"
  | Some urls =>
      Returned (DeeplTranslateStrategy
                  (if includes urls "," then split_comma urls else [urls]))
  end.

(** The constructor of [GeminiOpenAITranslateStrategy] (lines 120-140). *)
Definition new_GeminiOpenAITranslateStrategy (config : TransConfig)
    : outcome Strategy :=
  if negb (isEmpty (xaiBaseURL config)) && negb (isEmpty (xaiApiKey config)) then
    Returned (GeminiOpenAITranslateStrategy (xaiBaseURL config)
                (xaiApiKey config) (xaiModel config))
  else if negb (isEmpty (aiBaseURL config)) && negb (isEmpty (aiApiKey config)) then
    Returned (GeminiOpenAITranslateStrategy (aiBaseURL config)
                (aiApiKey config) (aiModel config))
  else Raised "未配置 XAI 或 OpenAI API".

(** [Translate.selectStrategy] (lines 244-270). *)
Definition selectStrategy (config : TransConfig) : outcome Strategy :=
  if negb (isEmpty (xaiBaseURL config)) && negb (isEmpty (xaiApiKey config)) then
    new_GeminiOpenAITranslateStrategy config
  else if isEmpty (xaiBaseURL config) && isEmpty (xaiApiKey config)
          && negb (isEmpty (deeplApiUrls config)) then
    new_DeeplTranslateStrategy config
  else if isEmpty (xaiBaseURL config)
          && (negb (isEmpty (aiBaseURL config)) && negb (isEmpty (aiApiKey config))) then
    new_GeminiOpenAITranslateStrategy config
  else Returned TencentTranslateStrategy.

(** ** Auxiliary notions used in the statements *)

(** Poll number [attempts st + k] ends the loop that is in state [st]: it
    sees a positive size, and so did the two polls before it; the polls
    before [attempts st] are summed up in [lastSize] and [stableChecks]. *)
Definition hit (obs : nat -> FileObs) (st : WatchState) (k : nat) (s : Z) : Prop :=
  0 < s /\ obs (attempts st + k)%nat = Size s /\
  match k with
  | O => lastSize st = s /\ (1 <= stableChecks st)%nat
  | S O => lastSize st = s /\ obs (attempts st) = Size s
  | S (S j) =>
      obs (attempts st + j)%nat = Size s /\ obs (attempts st + S j)%nat = Size s
  end.

(** The session of conversation [g] as line 477 reads it from the cache. *)
Definition storedSession (g : Z) (w : World) : option Session :=
  songInfo ← redis_songInfo w;
  saveId ← findIndex (fun item => group_id item =? g) songInfo;
  songInfo !! saveId.

(** The personal library [getCloudSong] hands to the search. *)
Definition cloudSongListSeen (pages : list CloudPage) (w : World)
    : list CloudSong :=
  let songList := default [] (redis_cloudSongList w) in
  if bool_decide (songList = []) then fetchCloudPages pages songList
  else songList.

(** A [POST /cloud] that [tryUpload] takes for a success: it answers with
    code 200 and a [privateCloud]. *)
Definition accepted_post (attempt : UploadAttempt) : bool :=
  match attempt with
  | PostFailed => false
  | PostOk code privateCloud _ =>
      (code =? 200) && bool_decide (is_Some privateCloud)
  end.

(** A computation that never touches the download directory. *)
Definition keeps_files {A} (m : M A) : Prop :=
  forall w, files (snd (m w)) = files w.

(** What the detail lookup never rewrites: the id and the duration. *)
Definition origin (t : Track) : Z * string := (id t, duration t).

(** A computation that never changes what [proj] reads in the world. *)
Definition keeps {A B} (proj : World -> B) (m : M A) : Prop :=
  forall w, proj (snd (m w)) = proj w.

(** [sub] occurs in [s]. *)
Definition substring_of (sub s : string) : Prop :=
  exists before after, s = before +:+ sub +:+ after.

(** One turn of the loop of lines 437-449, as [detailPass] folds it. *)
Definition detailStep (acc : gmap Z string * list Track) (d : SongDetail)
    : gmap Z string * list Track :=
  (<[d_id d := coverOf d]> (fst acc), correctEntry d (snd acc)).

(** A [POST /cloud] that the [tryUpload] of [getLatestDocument] takes for a
    success. *)
Definition answered_post (attempt : UploadAttempt) : bool :=
  match attempt with
  | PostFailed => false
  | PostOk _ _ _ => true
  end.

(** ** Concrete inputs used in the examples *)

Definition example_cfg : Config :=
  {| useNeteaseSongRequest := true; useLocalNeteaseAPI := false;
     neteaseCloudAPIServer := ""; neteaseCloudAudioQuality := "exhigh";
     songRequestMaxList := 2; isSendVocal := true; defaultPath := "/data/" |}.

Definition example_song : Track :=
  {| id := 1; songName := "b"; singerName := Some "a"; duration := "03:00";
     cover := None |}.

(** A delivery whose requests all answer; the card goes out or not. *)
Definition example_delivery (card : bool) : DeliveryEnv :=
  {| urlResp := UrlOk (Some {| u_url := Some "http://m/1.mp3";
                               u_level := Some "exhigh"; u_size := Some 1000;
                               u_type := JsStr "mp3" |});
     wikiResp := WikiOk []; tempResp := TempFailed; cardOk := card;
     download := Some "/data/9/a-b.mp3"; groupFileOk := true |}.

Definition example_event (msg : Command) : Event :=
  {| e_group_id := Some 9; e_user_id := 3; e_msg := msg |}.

Definition example_card : ShareCard :=
  {| sc_id := Some "1"; sc_title := Some "y"; sc_desc := Some "x" |}.

(** The file is there and no longer grows. *)
Definition example_obs : string -> nat -> FileObs := fun _ _ => Size 5.

Definition example_refresh : RefreshEnv := {| r_pages := []; r_stat := None |}.

Definition example_world : World :=
  set_files {[ "/data/9/x-y.flac" ]} initial_world.

(** ** Region selector *)

(** C1. On a cache without the region key, the first call of
    [isOverseasServer] answers overseas but stores [os: false]; the second
    call reads the stored flag and answers domestic.  The stored decision is
    not the one the first call reported. *)
Theorem isOverseasServer_first_call_disagrees (w : World) :
  let first := isOverseasServer (set_isOversea None w) in
  fst first = Returned true /\
  redis_isOversea (snd first) = Some {| os := false |} /\
  fst (isOverseasServer (snd first)) = Returned false.
Proof. repeat split. Qed.

(** ** File-readiness watcher *)

Lemma waitForFile_loop_absent (remaining : nat) (st : WatchState) :
  waitForFile_loop (fun _ => Absent) remaining st =
  (false, match remaining with
          | O => st
          | S _ => {| attempts := (attempts st + remaining)%nat;
                      lastSize := -1; stableChecks := O |}
          end).
Proof.
  revert st. induction remaining as [|r IH]; intros st; [reflexivity|].
  cbn [waitForFile_loop]. rewrite IH. destruct r; cbn [attempts].
  - do 2 f_equal. lia.
  - do 2 f_equal. lia.
Qed.

(** C4. For a path at which no file ever appears the watcher answers false
    after [timeoutSeconds] polls, one every 500 ms: 120 polls and 60 s with
    the default of 120, not the 240 polls that 120 s would take. *)
Theorem waitForFile_never_appears_attempts :
  (forall timeoutSeconds : Z,
      fst (waitForFile_run (fun _ => Absent) timeoutSeconds) = false /\
      attempts (snd (waitForFile_run (fun _ => Absent) timeoutSeconds))
      = Z.to_nat timeoutSeconds) /\
  attempts (snd (waitForFile_run (fun _ => Absent) default_timeoutSeconds))
  = 120%nat /\
  slept_ms (snd (waitForFile_run (fun _ => Absent) default_timeoutSeconds))
  = 60000.
Proof.
  split.
  - intros t. unfold waitForFile_run, maxAttempts.
    rewrite waitForFile_loop_absent. split; [reflexivity|].
    destruct (Z.to_nat t); reflexivity.
  - unfold waitForFile_run. rewrite waitForFile_loop_absent.
    split; reflexivity.
Qed.

Ltac shift_obs :=
  repeat match goal with
         | H : _ /\ _ |- _ => destruct H
         end;
  repeat split; try lia; try congruence;
  match goal with
  | H : ?obs ?i = Size ?s |- ?obs ?j = Size ?s =>
      replace j with i by lia; exact H
  end.

Lemma stable_step (cur last : Z) (sc : nat) :
  (((if (0 <? cur) && (cur =? last) then S sc else O) <> O)
   <-> (0 < cur /\ cur = last)) /\
  ((2 <= (if (0 <? cur)%Z && (cur =? last)%Z then S sc else O))%nat
   <-> (0 < cur /\ cur = last /\ (1 <= sc)%nat)).
Proof.
  destruct (Z.ltb_spec 0 cur), (Z.eqb_spec cur last); cbn; lia.
Qed.

Lemma waitForFile_loop_hit (obs : nat -> FileObs) (remaining : nat)
    (st : WatchState) :
  fst (waitForFile_loop obs remaining st) = true <->
  exists k s, (k < remaining)%nat /\ hit obs st k s.
Proof.
  revert st. induction remaining as [|r IH]; intros st.
  - cbn. split; [discriminate|]. intros (k & s & Hk & _). lia.
  - cbn [waitForFile_loop].
    destruct (obs (attempts st)) as [| |cur] eqn:Hobs.
    + rewrite IH. unfold hit. split.
      * intros (k & s & Hk & Hpos & Hobsk & Hrest). exists (S k), s.
        destruct k as [|[|j]]; cbn [attempts lastSize stableChecks] in *;
          shift_obs.
      * intros (k & s & Hk & Hpos & Hobsk & Hrest).
        destruct k as [|[|[|j]]]; cbn [attempts lastSize stableChecks] in *.
        -- rewrite Nat.add_0_r in Hobsk. congruence.
        -- destruct Hrest. congruence.
        -- destruct Hrest as [H1 _]. rewrite Nat.add_0_r in H1. congruence.
        -- exists (S (S j)), s. cbn [attempts lastSize stableChecks].
           shift_obs.
    + rewrite IH. unfold hit. split.
      * intros (k & s & Hk & Hpos & Hobsk & Hrest). exists (S k), s.
        destruct k as [|[|j]]; cbn [attempts lastSize stableChecks] in *;
          shift_obs.
      * intros (k & s & Hk & Hpos & Hobsk & Hrest).
        destruct k as [|[|[|j]]]; cbn [attempts lastSize stableChecks] in *.
        -- rewrite Nat.add_0_r in Hobsk. congruence.
        -- destruct Hrest. congruence.
        -- destruct Hrest as [H1 _]. rewrite Nat.add_0_r in H1. congruence.
        -- exists (S (S j)), s. cbn [attempts lastSize stableChecks].
           shift_obs.
    + destruct (stable_step cur (lastSize st) (stableChecks st)) as [Hne Hge].
      set (stable := if (0 <? cur) && (cur =? lastSize st)
                     then S (stableChecks st) else O) in *.
      unfold requiredStableChecks.
      destruct (Nat.leb_spec 2 stable) as [Hreq|Hreq].
      * cbn [fst]. split; [intros _|reflexivity].
        apply Hge in Hreq as (Hp & He & Hsc).
        exists O, cur. split; [lia|]. unfold hit.
        rewrite Nat.add_0_r. auto.
      * rewrite IH. unfold hit. split.
        -- intros (k & s & Hk & Hpos & Hobsk & Hrest). exists (S k), s.
           destruct k as [|[|j]]; cbn [attempts lastSize stableChecks] in *.
           ++ destruct Hrest as [Hl Hs]. subst cur.
              assert (stable <> O) as Hs' by lia. apply Hne in Hs'.
              shift_obs.
           ++ destruct Hrest as [Hl Hs]. subst cur.
              rewrite Nat.add_0_r. shift_obs.
           ++ shift_obs.
        -- intros (k & s & Hk & Hpos & Hobsk & Hrest).
           destruct k as [|[|[|j]]]; cbn [attempts lastSize stableChecks] in *.
           ++ exfalso. rewrite Nat.add_0_r in Hobsk.
              destruct Hrest as [Hl Hs].
              assert (cur = s) by congruence. subst cur.
              assert (2 <= stable)%nat by (apply Hge; lia). lia.
           ++ destruct Hrest as [Hl Hs].
              assert (cur = s) by congruence. subst cur.
              assert (stable <> O) by (apply Hne; lia).
              exists O, s. cbn [attempts lastSize stableChecks].
              shift_obs.
           ++ destruct Hrest as [H1 H2]. rewrite Nat.add_0_r in H1.
              assert (cur = s) by congruence. subst cur.
              exists 1%nat, s. cbn [attempts lastSize stableChecks].
              shift_obs.
           ++ exists (S (S j)), s. cbn [attempts lastSize stableChecks].
              shift_obs.
Qed.

(** C3, as the code has it.  [waitForFile] answers true exactly when, among
    the polls it makes before it gives up, three consecutive ones see the
    same positive size: two stable comparisons in a row, as
    [requiredStableChecks = 2] asks. *)
Theorem waitForFile_true_iff_three_equal (obs : nat -> FileObs)
    (timeoutSeconds : Z) :
  fst (waitForFile_run obs timeoutSeconds) = true <->
  exists (i : nat) (s : Z),
    (i + 2 < Z.to_nat (maxAttempts timeoutSeconds))%nat /\ 0 < s /\
    obs i = Size s /\ obs (i + 1)%nat = Size s /\ obs (i + 2)%nat = Size s.
Proof.
  unfold waitForFile_run, maxAttempts. rewrite waitForFile_loop_hit.
  unfold hit, watch_start. cbn [attempts lastSize stableChecks]. split.
  - intros (k & s & Hk & Hpos & Hobsk & Hrest).
    destruct k as [|[|j]]; [lia | lia |].
    destruct Hrest as [H1 H2]. exists j, s. cbn in *.
    split; [lia|]. split; [exact Hpos|]. split; [exact H1|].
    split; [rewrite <- H2 | rewrite <- Hobsk]; f_equal; lia.
  - intros (i & s & Hi & Hpos & H0 & H1 & H2). exists (S (S i)), s.
    split; [lia|]. split; [exact Hpos|]. cbn.
    split; [rewrite <- H2; f_equal; lia|].
    split; [exact H0 | rewrite <- H1; f_equal; lia].
Qed.

(** C3, as stated, fails: two consecutive equal positive observations do not
    make the watcher answer true. *)
Lemma waitForFile_two_equal_not_enough :
  let obs := fun k : nat => if (k <? 2)%nat then Size 5 else Absent in
  (exists (i : nat) (s : Z),
      (i + 1 < Z.to_nat (maxAttempts default_timeoutSeconds))%nat /\ 0 < s /\
      obs i = Size s /\ obs (i + 1)%nat = Size s) /\
  fst (waitForFile_run obs default_timeoutSeconds) = false.
Proof.
  split.
  - exists O, 5. repeat split; vm_compute; try reflexivity. lia.
  - vm_compute. reflexivity.
Qed.

(** ** Credential probe *)

(** C6, as the code has it.  [checkCooike] answers true exactly when the
    login status carries a profile; a library-scoped probe that finds a null
    profile answers false; a failed request and a payload without [data]
    make it reject instead of answering. *)
Theorem checkCooike_outcomes :
  (forall login cookieType w,
      fst (checkCooike login cookieType w) = Returned true <->
      exists profile, login = LoginOk (Some (Some profile))) /\
  (forall w, fst (checkCooike (LoginOk (Some None)) CkCloud w) = Returned false) /\
  (forall cookieType w,
      fst (checkCooike LoginFailed cookieType w) = Raised "AxiosError") /\
  (forall cookieType w,
      fst (checkCooike (LoginOk None) cookieType w) = Raised "TypeError").
Proof.
  split; [|split; [|split]]; try reflexivity.
  intros login cookieType w. split.
  - destruct login as [|[[profile|]|]], cookieType; cbn; try discriminate;
      intros _; eauto.
  - intros [profile ->]. destruct cookieType; reflexivity.
Qed.

(** C6, as stated, fails: on a transport failure the probe rejects, it does
    not answer false. *)
Lemma checkCooike_transport_failure_raises :
  fst (checkCooike LoginFailed CkCloud initial_world) = Raised "AxiosError" /\
  fst (checkCooike LoginFailed CkCloud initial_world) <> Returned false.
Proof. split; [reflexivity | discriminate]. Qed.

(** ** What the methods leave untouched *)

Ltac unfold_m :=
  unfold bind, ret, raise, get, modify, reply, try_catch, try_finally,
    detached in *.

Lemma pickApi_frame (cfg : Config) (NETEASE_SONG_DOWNLOAD NETEASE_API_CN : string)
    (w : World) :
  let r := pickApi cfg NETEASE_SONG_DOWNLOAD NETEASE_API_CN w in
  (exists api, fst r = Returned api) /\
  redis_songInfo (snd r) = redis_songInfo w /\
  redis_cloudSongList (snd r) = redis_cloudSongList w /\
  files (snd r) = files w /\
  FileSuffix (snd r) = FileSuffix w /\
  replies (snd r) = replies w.
Proof.
  unfold pickApi, isOverseasServer. unfold_m.
  destruct (redis_isOversea w) as [flag|] eqn:E;
    rewrite ?bool_decide_eq_true_2, ?bool_decide_eq_false_2 by
      (rewrite <- ?not_eq_None_Some; eauto; intros [? ?]; discriminate);
    cbn; rewrite ?E; destruct (useLocalNeteaseAPI cfg); cbn; eauto 10.
Qed.

Lemma waitForFile_frame (obs : nat -> FileObs) (timeoutSeconds : Z) (w : World) :
  let r := waitForFile obs timeoutSeconds w in
  fst r = Returned (fst (waitForFile_run obs timeoutSeconds)) /\
  redis_songInfo (snd r) = redis_songInfo w /\
  files (snd r) = files w /\
  FileSuffix (snd r) = FileSuffix w.
Proof.
  unfold waitForFile. destruct (fst (waitForFile_run obs timeoutSeconds));
    cbn; auto.
Qed.

Lemma bind_get {A B} (f : World -> A) (k : A -> M B) (w : World) :
  bind (get f) k w = k (f w) w.
Proof. reflexivity. Qed.

Lemma bind_pickApi {B} (cfg : Config) (a b : string) (k : string -> M B)
    (w : World) :
  exists api w1,
    redis_songInfo w1 = redis_songInfo w /\
    redis_cloudSongList w1 = redis_cloudSongList w /\
    replies w1 = replies w /\
    bind (pickApi cfg a b) k w = k api w1.
Proof.
  destruct (pickApi_frame cfg a b w) as ([api Hapi] & Hs & Hc & _ & _ & Hr).
  unfold bind. destruct (pickApi cfg a b w) as [[x|err] w1];
    cbn in Hapi, Hs, Hc, Hr; [|discriminate].
  exists x, w1. auto.
Qed.

(** ** Delivery *)

Lemma removed_after_download (dir : gset string) (path : string) :
  path ∉ (dir ∪ {[path]}) ∖ {[path]}.
Proof.
  intros [_ Hnot]%elem_of_difference. apply Hnot, elem_of_singleton.
  reflexivity.
Qed.

(** C5, as the code has it.  In a delivery that gets as far as the download
    and whose download succeeds, the downloaded file is removed when the card
    could not be sent and the file went out as a raw transfer, whether that
    transfer went through or not; when the card was sent the file stays in
    the download directory. *)
Theorem neteasePlay_cleanup_only_on_fallback (cfg : Config) (env : DeliveryEnv)
    (songInfo : list Track) (pickNumber : Z) (isCkExpired isCloudSong : bool)
    (resolved : option string * JsString) (path : string) (w : World) :
  fst (resolveTrack env songInfo pickNumber isCkExpired w) = Returned resolved ->
  download env = Some path ->
  let w' := snd (neteasePlay cfg env songInfo pickNumber isCkExpired isCloudSong w) in
  (cardOk env = false -> path ∉ files w') /\
  (cardOk env = true -> path ∈ files w').
Proof.
  intros Hres Hdl. unfold neteasePlay, deliver, afterDownload, downloadAudio,
    uploadGroupFile, checkAndRemoveFile.
  rewrite Hdl. unfold_m.
  destruct (resolveTrack env songInfo pickNumber isCkExpired w) as [[r|err] w1];
    cbn in Hres; [|discriminate].
  cbn. split; intros Hcard; rewrite Hcard; cbn.
  - destruct (groupFileOk env); cbn.
    + destruct (negb _ && _); cbn; apply removed_after_download.
    + apply removed_after_download.
  - apply elem_of_union_r, elem_of_singleton. reflexivity.
Qed.

(** C5, as stated, fails: after a delivery by card the download is still in
    the directory. *)
Lemma neteasePlay_card_keeps_download :
  download (example_delivery true) = Some "/data/9/a-b.mp3" /\
  "/data/9/a-b.mp3" ∈
    files (snd (neteasePlay example_cfg (example_delivery true) [example_song]
                  0 true false initial_world)).
Proof. split; [reflexivity|]. vm_compute. set_solver. Qed.

Lemma neteasePlay_cleanup_witness :
  let w' := snd (neteasePlay example_cfg (example_delivery false)
                   [example_song] 0 true false initial_world) in
  (cardOk (example_delivery false) = false -> "/data/9/a-b.mp3" ∉ files w') /\
  (cardOk (example_delivery false) = true -> "/data/9/a-b.mp3" ∈ files w').
Proof.
  apply (neteasePlay_cleanup_only_on_fallback example_cfg
           (example_delivery false) [example_song] 0 true false
           (Some "http://m/1.mp3", JsStr "mp3") "/data/9/a-b.mp3" initial_world);
    reflexivity.
Defined.

(** ** The shared file suffix *)



Lemma bind_cong {A B} (m : M A) (k k' : A -> M B) (w : World) :
  (forall a, k a (snd (m w)) = k' a (snd (m w))) -> bind m k w = bind m k' w.
Proof. intros H. unfold bind. destruct (m w) as [[a|err] w1]; cbn in *; auto. Qed.

Lemma bind_uploadPath {B} (cfg : Config) (e : Event) (desc title : string)
    (k : string -> M B) (w : World) :
  bind (uploadPath cfg e desc title) k w =
  k (getCurDownloadPath cfg e +:+ "/" +:+ desc +:+ "-" +:+ title
     +:+ "." +:+ js_str (FileSuffix w)) w.
Proof. reflexivity. Qed.






(** ** Cloud upload *)

Lemma keeps_files_ret {A} (a : A) : keeps_files (ret a).
Proof. intros w. reflexivity. Qed.

Lemma keeps_files_raise {A} (err : string) : keeps_files (@raise A err).
Proof. intros w. reflexivity. Qed.

Lemma keeps_files_bind {A B} (m : M A) (k : A -> M B) :
  keeps_files m -> (forall a, keeps_files (k a)) -> keeps_files (bind m k).
Proof.
  intros Hm Hk w. unfold bind. specialize (Hm w).
  destruct (m w) as [[a|err] w1]; cbn in *; [|exact Hm].
  rewrite Hk. exact Hm.
Qed.

Lemma keeps_files_try_catch {A} (m : M A) (h : string -> M A) :
  keeps_files m -> (forall err, keeps_files (h err)) ->
  keeps_files (try_catch m h).
Proof.
  intros Hm Hh w. unfold try_catch. specialize (Hm w).
  destruct (m w) as [[a|err] w1]; cbn in *; [exact Hm|].
  rewrite Hh. exact Hm.
Qed.

Lemma keeps_files_detached {A} (m : M A) :
  keeps_files m -> keeps_files (detached m).
Proof. intros Hm w. apply Hm. Qed.

Lemma keeps_files_modify (f : World -> World) :
  (forall w, files (f w) = files w) -> keeps_files (modify f).
Proof. intros Hf w. apply Hf. Qed.

Lemma keeps_files_pickApi (cfg : Config) (a b : string) :
  keeps_files (pickApi cfg a b).
Proof. intros w. apply pickApi_frame. Qed.

Lemma keeps_files_getCloudSong (cfg : Config) (a b : string)
    (pages : list CloudPage) (cloudUpdate : bool) :
  keeps_files (getCloudSong cfg a b pages cloudUpdate).
Proof.
  unfold getCloudSong. apply keeps_files_bind; [intros w; reflexivity|].
  intros stored. destruct (_ || _); [|apply keeps_files_ret].
  apply keeps_files_bind; [apply keeps_files_pickApi|]. intros _.
  apply keeps_files_bind; [apply keeps_files_modify; reflexivity|].
  intros _. apply keeps_files_ret.
Qed.

Lemma keeps_files_songCloudUpdate (cfg : Config) (a b : string)
    (toGBorTB : Z -> string) (pages : list CloudPage) (stat : option CloudStat) :
  keeps_files (songCloudUpdate cfg a b toGBorTB pages stat).
Proof.
  unfold songCloudUpdate, cleanCloudData, myCloud, reply.
  apply keeps_files_try_catch; [|intros; apply keeps_files_ret].
  apply keeps_files_bind; [apply keeps_files_modify; reflexivity|]. intros _.
  apply keeps_files_bind; [apply keeps_files_getCloudSong|]. intros _.
  apply keeps_files_bind; [apply keeps_files_modify; reflexivity|]. intros _.
  apply keeps_files_bind; [apply keeps_files_pickApi|]. intros _.
  destruct stat; [apply keeps_files_modify; reflexivity | apply keeps_files_raise].
Qed.

Lemma tryUpload_outcome (cfg : Config) (a b : string) (toGBorTB : Z -> string)
    (refresh : RefreshEnv) (attempt : UploadAttempt) (w : World) :
  let r := tryUpload cfg a b toGBorTB refresh attempt w in
  files (snd r) = files w /\
  (accepted_post attempt = true -> fst r = Returned tt) /\
  (accepted_post attempt = false -> exists err, fst r = Raised err).
Proof.
  unfold tryUpload, accepted_post.
  destruct attempt as [|code [sid|] m]; cbn.
  - split; [reflexivity|]. split; [discriminate|eauto].
  - destruct (code =? 200); cbn.
    + split; [apply keeps_files_songCloudUpdate|]. split; [reflexivity|discriminate].
    + split; [reflexivity|]. split; [discriminate|eauto].
  - destruct (code =? 200); cbn; (split; [reflexivity|]);
      (split; [discriminate|eauto]).
Qed.

Lemma retryAxiosReq_outcome (cfg : Config) (a b : string) (toGBorTB : Z -> string)
    (refresh : RefreshEnv) (posts : nat -> UploadAttempt) (retries k : nat)
    (w : World) :
  let r := retryAxiosReq (fun i => tryUpload cfg a b toGBorTB refresh (posts i))
             retries k w in
  files (snd r) = files w /\
  ((exists i, (i <= retries)%nat /\ accepted_post (posts (k + i)%nat) = true) ->
   fst r = Returned tt) /\
  ((forall i, (i <= retries)%nat -> accepted_post (posts (k + i)%nat) = false) ->
   exists err, fst r = Raised err).
Proof.
  revert k w. induction retries as [|n IH]; intros k w; cbn [retryAxiosReq];
    unfold try_catch;
    destruct (tryUpload_outcome cfg a b toGBorTB refresh (posts k) w)
      as (Hf & Hok & Hko);
    destruct (tryUpload cfg a b toGBorTB refresh (posts k) w) as [[[]|err] w1] eqn:E;
    cbn [fst snd] in *.
  - split; [exact Hf|]. split; [reflexivity|].
    intros Hall. specialize (Hall O (Nat.le_refl _)). rewrite Nat.add_0_r in Hall.
    destruct (Hko Hall) as [? ?]. discriminate.
  - split; [exact Hf|]. split; [|eauto].
    intros (i & Hi & Hacc). assert (i = O) by lia. subst i.
    rewrite Nat.add_0_r in Hacc. specialize (Hok Hacc). discriminate.
  - split; [exact Hf|]. split; [reflexivity|].
    intros Hall. specialize (Hall O (Nat.le_0_l _)). rewrite Nat.add_0_r in Hall.
    destruct (Hko Hall) as [? ?]. discriminate.
  - destruct (IH (S k) w1) as (Hf' & Hok' & Hko').
    split; [congruence|]. split.
    + intros (i & Hi & Hacc). destruct i as [|i].
      * rewrite Nat.add_0_r in Hacc. specialize (Hok Hacc). discriminate.
      * apply Hok'. exists i. split; [lia|].
        replace (S k + i)%nat with (k + S i)%nat by lia. exact Hacc.
    + intros Hall. apply Hko'. intros i Hi.
      replace (S k + i)%nat with (k + S i)%nat by lia. apply Hall. lia.
Qed.

Lemma uploadCloud_after_wait (cfg : Config)
    (NETEASE_SONG_DOWNLOAD NETEASE_API_CN : string) (toGBorTB : Z -> string)
    (default_retries : nat) (e : Event) (card : ShareCard)
    (obs : string -> nat -> FileObs) (posts : nat -> UploadAttempt)
    (refresh : RefreshEnv) (w : World) (id_ title desc : string) :
  sc_id card = Some id_ -> id_ <> "" ->
  sc_title card = Some title -> sc_desc card = Some desc ->
  let path := getCurDownloadPath cfg e +:+ "/" +:+ desc +:+ "-" +:+ title
              +:+ "." +:+ js_str (FileSuffix w) in
  fst (waitForFile_run (obs path) default_timeoutSeconds) = true ->
  exists w1,
    files w1 = files w /\
    uploadCloud cfg NETEASE_SONG_DOWNLOAD NETEASE_API_CN toGBorTB
      default_retries e card obs posts refresh w
    = bind (retryAxiosReq
              (fun k => tryUpload cfg NETEASE_SONG_DOWNLOAD NETEASE_API_CN
                          toGBorTB refresh (posts k)) default_retries O)
           (fun _ => checkAndRemoveFile path) w1.
Proof.
  intros Hid Hne Ht Hd path Hwait. unfold uploadCloud.
  rewrite Hid, Ht, Hd.
  destruct (pickApi_frame cfg NETEASE_SONG_DOWNLOAD NETEASE_API_CN w)
    as ([api Hapi] & _ & _ & Hfiles & Hfs & _).
  unfold bind at 1.
  destruct (pickApi cfg NETEASE_SONG_DOWNLOAD NETEASE_API_CN w) as [[a|err] w1];
    cbn in Hapi, Hfiles, Hfs; [|discriminate].
  exists w1. split; [exact Hfiles|].
  apply String.eqb_neq in Hne. rewrite Hne.
  rewrite bind_uploadPath, Hfs. fold path.
  unfold waitForFile. rewrite Hwait. reflexivity.
Qed.

(** C7, as the code has it.  Once the watcher has found the file,
    [uploadCloud] removes it when one of the runs of the upload granted by
    the retry wrapper is accepted; when every run fails the wrapper's
    failure escapes [uploadCloud] and the file is left where it is. *)
Theorem uploadCloud_removes_file_only_on_success (cfg : Config)
    (NETEASE_SONG_DOWNLOAD NETEASE_API_CN : string) (toGBorTB : Z -> string)
    (default_retries : nat) (e : Event) (card : ShareCard)
    (obs : string -> nat -> FileObs) (posts : nat -> UploadAttempt)
    (refresh : RefreshEnv) (w : World) (id_ title desc : string) :
  sc_id card = Some id_ -> id_ <> "" ->
  sc_title card = Some title -> sc_desc card = Some desc ->
  let path := getCurDownloadPath cfg e +:+ "/" +:+ desc +:+ "-" +:+ title
              +:+ "." +:+ js_str (FileSuffix w) in
  fst (waitForFile_run (obs path) default_timeoutSeconds) = true ->
  let r := uploadCloud cfg NETEASE_SONG_DOWNLOAD NETEASE_API_CN toGBorTB
             default_retries e card obs posts refresh w in
  ((exists i, (i <= default_retries)%nat /\ accepted_post (posts i) = true) ->
   fst r = Returned tt /\ files (snd r) = files w ∖ {[path]}) /\
  ((forall i, (i <= default_retries)%nat -> accepted_post (posts i) = false) ->
   (exists err, fst r = Raised err) /\ files (snd r) = files w).
Proof.
  intros Hid Hne Ht Hd path Hwait r.
  destruct (uploadCloud_after_wait cfg NETEASE_SONG_DOWNLOAD NETEASE_API_CN
              toGBorTB default_retries e card obs posts refresh w id_ title
              desc Hid Hne Ht Hd Hwait) as (w1 & Hfiles & Heq).
  fold path in Heq. subst r. rewrite Heq. clear Heq.
  destruct (retryAxiosReq_outcome cfg NETEASE_SONG_DOWNLOAD NETEASE_API_CN
              toGBorTB refresh posts default_retries O w1) as (Hf & Hok & Hko).
  unfold bind, checkAndRemoveFile, modify.
  destruct (retryAxiosReq _ default_retries O w1) as [[[]|err] w2];
    cbn [fst snd set_files files] in *; split.
  - intros _. split; [reflexivity|]. rewrite Hf, Hfiles. reflexivity.
  - intros Hall. destruct (Hko Hall) as [? ?]. discriminate.
  - intros Hex. specialize (Hok Hex). discriminate.
  - intros _. split; [eauto|]. congruence.
Qed.

(** C7, as stated, fails: when every run of the upload fails, [uploadCloud]
    rejects and the file it waited for is still there. *)
Lemma uploadCloud_exhausted_keeps_file :
  let r := uploadCloud example_cfg "" "" (fun _ => "") 3
             (example_event CmdOther) example_card example_obs
             (fun _ => PostFailed) example_refresh example_world in
  fst r = Raised "AxiosError" /\ "/data/9/x-y.flac" ∈ files (snd r).
Proof. split; [reflexivity|]. vm_compute. set_solver. Qed.

Lemma uploadCloud_removes_file_witness :
  let r := uploadCloud example_cfg "" "" (fun _ => "") 3
             (example_event CmdOther) example_card example_obs
             (fun k => if (k <? 2)%nat then PostFailed else PostOk 200 (Some 7) true)
             example_refresh example_world in
  fst r = Returned tt /\
  files (snd r) = files example_world ∖ {[ "/data/9/x-y.flac" ]}.
Proof.
  refine (proj1 (uploadCloud_removes_file_only_on_success example_cfg "" ""
                   (fun _ => "") 3 (example_event CmdOther) example_card
                   example_obs
                   (fun k => if (k <? 2)%nat then PostFailed else PostOk 200 (Some 7) true)
                   example_refresh example_world "1" "y" "x"
                   eq_refl _ eq_refl eq_refl eq_refl) _).
  - discriminate.
  - exists 2%nat. split; [lia | reflexivity].
Defined.

(** ** Keyword search *)

Lemma getCloudSong_search (cfg : Config) (a b : string)
    (pages : list CloudPage) (w : World) :
  let r := getCloudSong cfg a b pages false w in
  fst r = Returned (cloudSongListSeen pages w) /\
  redis_songInfo (snd r) = redis_songInfo w /\
  replies (snd r) = replies w.
Proof.
  unfold getCloudSong, cloudSongListSeen, bind, get. cbn [fst snd].
  rewrite orb_false_r.
  destruct (bool_decide (default [] (redis_cloudSongList w) = [])); [|auto].
  destruct (pickApi_frame cfg a b w) as ([api Hapi] & Hs & _ & _ & _ & Hr).
  destruct (pickApi cfg a b w) as [[x|err] w1]; cbn in Hapi, Hs, Hr;
    [|discriminate].
  cbn. auto.
Qed.






(** ** Short play command *)

Lemma js_index_beyond {A} (l : list A) (number : nat) :
  (length l < number)%nat -> js_index l (Z.of_nat number - 1) = None.
Proof.
  intros Hlen. unfold js_index.
  destruct (Z.ltb_spec (Z.of_nat number - 1) 0); [reflexivity|].
  apply lookup_ge_None. lia.
Qed.

Lemma pickSong_play_unresolved (cfg : Config) (g : Z) (number : nat)
    (env : PlayEnv) (w : World) :
  storedSession g w = None \/
  (exists session, storedSession g w = Some session /\
                   (length (data session) < number)%nat) ->
  pickSong_play cfg g number env w = (Raised "TypeError", w).
Proof.
  unfold storedSession, pickSong_play. rewrite bind_get.
  destruct (redis_songInfo w) as [songInfo|]; [|reflexivity]. cbn.
  intros [Hnone | (session & Hsome & Hlen)].
  - rewrite Hnone. reflexivity.
  - rewrite Hsome, (js_index_beyond _ _ Hlen). reflexivity.
Qed.

Lemma pickSong_play_run (cfg : Config)
    (NETEASE_SONG_DOWNLOAD NETEASE_API_CN : string) (formatTime : Z -> string)
    (e : Event) (g : Z) (number : nat) (pages : list CloudPage)
    (search : SearchResponse) (detail : DetailResponse) (env : PlayEnv)
    (w : World) :
  useNeteaseSongRequest cfg = true ->
  truthy_group e = Some g ->
  e_msg e = CmdPlay number ->
  storedSession g w = None \/
  (exists session, storedSession g w = Some session /\
                   (length (data session) < number)%nat) ->
  exists w1,
    redis_songInfo w1 = redis_songInfo w /\ replies w1 = replies w /\
    pickSong cfg NETEASE_SONG_DOWNLOAD NETEASE_API_CN formatTime e pages
      search detail env w = (Raised "TypeError", w1).
Proof.
  intros Hon Hg Hmsg Hmiss. unfold pickSong.
  rewrite Hon, Hg, Hmsg. cbn [negb].
  match goal with
  | |- context [bind (pickApi _ _ _) ?k w] =>
      destruct (bind_pickApi cfg NETEASE_SONG_DOWNLOAD NETEASE_API_CN k w)
        as (api & w1 & Hs & Hc & Hr & ->)
  end.
  rewrite bind_get. unfold bind at 1.
  rewrite pickSong_play_unresolved
    by (unfold storedSession in *; rewrite Hs; exact Hmiss).
  exists w1. auto.
Qed.

(** C10.  A [#听N] command in a conversation for which the cache holds no
    session, or whose session has fewer than N tracks, makes [pickSong]
    reject with the [TypeError] of reading a property of [undefined]; no
    reply is sent and the session store is not written. *)
Theorem pickSong_play_without_target_raises (cfg : Config)
    (NETEASE_SONG_DOWNLOAD NETEASE_API_CN : string) (formatTime : Z -> string)
    (e : Event) (g : Z) (number : nat) (pages : list CloudPage)
    (search : SearchResponse) (detail : DetailResponse) (env : PlayEnv)
    (w : World) :
  useNeteaseSongRequest cfg = true ->
  truthy_group e = Some g ->
  e_msg e = CmdPlay number ->
  storedSession g w = None \/
  (exists session, storedSession g w = Some session /\
                   (length (data session) < number)%nat) ->
  let r := pickSong cfg NETEASE_SONG_DOWNLOAD NETEASE_API_CN formatTime e pages
             search detail env w in
  fst r = Raised "TypeError" /\
  replies (snd r) = replies w /\
  redis_songInfo (snd r) = redis_songInfo w.
Proof.
  intros Hon Hg Hmsg Hmiss r.
  destruct (pickSong_play_run cfg NETEASE_SONG_DOWNLOAD NETEASE_API_CN
              formatTime e g number pages search detail env w Hon Hg Hmsg Hmiss)
    as (w1 & Hs & Hr & Heq).
  subst r. rewrite Heq. cbn. auto.
Qed.

Lemma pickSong_play_without_target_witness :
  let r := pickSong example_cfg "" "" (fun _ => "")
             (example_event (CmdPlay 2)) [] SearchFailed DetailFailed
             {| login := LoginFailed; delivery := example_delivery true |}
             (set_songInfo (Some [ {| group_id := 9; data := [example_song] |} ])
                initial_world) in
  fst r = Raised "TypeError" /\ replies (snd r) = [].
Proof.
  pose proof (pickSong_play_without_target_raises example_cfg "" ""
                (fun _ => "") (example_event (CmdPlay 2)) 9 2 [] SearchFailed
                DetailFailed
                {| login := LoginFailed; delivery := example_delivery true |}
                (set_songInfo
                   (Some [ {| group_id := 9; data := [example_song] |} ])
                   initial_world)
                eq_refl eq_refl eq_refl
                (or_intror
                   (ex_intro _ {| group_id := 9; data := [example_song] |}
                      (conj eq_refl (le_n 2))))) as (H1 & H2 & _).
  split; [exact H1 | exact H2].
Defined.

(** ** Merge of the personal library with the catalog *)

Lemma map_alter_same {A B} (f : A -> B) (g : A -> A) (i : nat) (l : list A) :
  (forall x, f (g x) = f x) -> map f (alter g i l) = map f l.
Proof.
  intros Hfg. revert i. induction l as [|x l IH]; intros [|i]; cbn;
    try reflexivity.
  - rewrite Hfg. reflexivity.
  - f_equal. apply IH.
Qed.

Lemma correctEntry_origin (d : SongDetail) (data0 : list Track) :
  map origin (correctEntry d data0) = map origin data0.
Proof.
  unfold correctEntry. destruct (findIndex _ data0); [|reflexivity].
  apply map_alter_same. reflexivity.
Qed.

Lemma detailPass_origin (details : list SongDetail) (acc : gmap Z string * list Track) :
  map origin
    (snd (foldl (fun acc d => (<[d_id d := coverOf d]> (fst acc),
                               correctEntry d (snd acc))) acc details))
  = map origin (snd acc).
Proof.
  revert acc. induction details as [|d ds IH]; intros acc; cbn; [reflexivity|].
  rewrite IH. cbn. apply correctEntry_origin.
Qed.

Lemma applyDetail_origin (details : list SongDetail) (data0 : list Track) :
  map origin (applyDetail details data0) = map origin data0.
Proof.
  unfold applyDetail, detailPass. rewrite map_map.
  erewrite map_ext; [apply detailPass_origin|].
  intros t. unfold withCover. destruct (_ !! _) as [c|]; [|reflexivity].
  destruct (String.eqb c ""); reflexivity.
Qed.

(** The merged list is the entries taken from the personal library followed
    by the catalog songs, in the order they came; the detail lookup changes
    neither ids nor durations. *)
Lemma mergedList_origin (cfg : Config) (formatTime : Z -> string)
    (matched : list CloudSong) (songs : list SearchSong)
    (details : list SongDetail) :
  map origin (mergedList cfg formatTime matched (Some songs) details)
  = map (fun s => (c_id s, c_duration s))
        (take (Z.to_nat (songListCount cfg matched)) matched)
    ++ map (fun info => (s_id info, formatTime (s_duration info))) songs.
Proof.
  unfold mergedList. rewrite applyDetail_origin. unfold pushCatalog, pushMatched.
  rewrite map_app, !map_map. reflexivity.
Qed.

(** C8, as the code has it.  When at least one entry of the personal library
    matches, the catalog answers with at least one song and with no more
    songs than the [limit] it was asked for, the merged list is no longer
    than [songRequestMaxList], and it is the matches of the personal library
    followed by the catalog songs. *)
Theorem mergedList_bounded_and_ordered (cfg : Config) (formatTime : Z -> string)
    (matched : list CloudSong) (songs : list SearchSong)
    (details : list SongDetail) :
  matched <> [] ->
  songs <> [] ->
  Z.of_nat (length songs) <= searchCount cfg matched ->
  let merged := mergedList cfg formatTime matched (Some songs) details in
  Z.of_nat (length merged) <= songRequestMaxList cfg /\
  exists fromLibrary fromCatalog,
    merged = fromLibrary ++ fromCatalog /\
    map origin fromLibrary = map (fun s => (c_id s, c_duration s)) matched /\
    map origin fromCatalog
    = map (fun info => (s_id info, formatTime (s_duration info))) songs.
Proof.
  intros Hm Hs Hlimit merged.
  pose proof (mergedList_origin cfg formatTime matched songs details) as Horig.
  fold merged in Horig.
  assert (Hlen : (0 < length songs)%nat) by (destruct songs; [done | cbn; lia]).
  assert (Hall : Z.to_nat (songListCount cfg matched) = length matched).
  { unfold searchCount, songListCount in *.
    destruct (Z.geb_spec (Z.of_nat (length matched)) (songRequestMaxList cfg)); lia. }
  rewrite Hall, firstn_all in Horig.
  split.
  - apply (f_equal (@length _)) in Horig.
    rewrite length_app, !length_map in Horig.
    unfold searchCount, songListCount in Hlimit.
    destruct (Z.geb_spec (Z.of_nat (length matched)) (songRequestMaxList cfg)); lia.
  - exists (take (length matched) merged), (drop (length matched) merged).
    split; [symmetry; apply take_drop|].
    rewrite <- !firstn_map, <- !skipn_map, Horig.
    split.
    + rewrite take_app_length'; [reflexivity | by rewrite length_map].
    + rewrite drop_app_length'; [reflexivity | by rewrite length_map].
Qed.

Lemma mergedList_bounded_and_ordered_witness :
  let matched := [ {| c_songName := "勇气"; c_id := 5; c_singerName := "梁静茹";
                      c_duration := "云盘" |} ] in
  let songs := [ {| s_id := 7; s_name := "勇气"; s_artists := ["棉子"];
                    s_duration := 200000 |} ] in
  Z.of_nat (length (mergedList example_cfg (fun _ => "03:20") matched
                      (Some songs) [])) <= 2.
Proof.
  intros matched songs.
  refine (proj1 (mergedList_bounded_and_ordered example_cfg (fun _ => "03:20")
                   matched songs [] _ _ _)).
  - discriminate.
  - discriminate.
  - vm_compute. discriminate.
Defined.

(** C8, as stated, fails: nothing in [pickSong] cuts the answer of the
    catalog down to the [limit] that was sent, so a longer answer makes the
    merged list longer than [songRequestMaxList]. *)
Lemma mergedList_exceeds_max :
  let matched := [ {| c_songName := "勇气"; c_id := 5; c_singerName := "梁静茹";
                      c_duration := "云盘" |} ] in
  let songs := [ {| s_id := 7; s_name := "勇气"; s_artists := ["棉子"];
                    s_duration := 200000 |};
                 {| s_id := 8; s_name := "勇气"; s_artists := [];
                    s_duration := 180000 |} ] in
  matched <> [] /\ songs <> [] /\
  songRequestMaxList example_cfg = 2 /\
  searchCount example_cfg matched = 1 /\
  length (mergedList example_cfg (fun _ => "03:20") matched (Some songs) [])
  = 3%nat.
Proof. repeat split; discriminate. Qed.

(** ** Further properties of the watcher *)

Lemma waitForFile_loop_first_hit (obs : nat -> FileObs) (remaining : nat)
    (st : WatchState) (k : nat) (s : Z) :
  (k < remaining)%nat -> hit obs st k s ->
  fst (waitForFile_loop obs remaining st) = true /\
  (attempts (snd (waitForFile_loop obs remaining st)) <= attempts st + k)%nat.
Proof.
  revert st k. induction remaining as [|r IH]; intros st k Hk Hhit; [lia|].
  cbn [waitForFile_loop].
  destruct (obs (attempts st)) as [| |cur] eqn:Hobs.
  - unfold hit in Hhit. destruct Hhit as (Hpos & Hobsk & Hrest).
    destruct k as [|[|[|j]]].
    + rewrite Nat.add_0_r in Hobsk. congruence.
    + destruct Hrest. congruence.
    + destruct Hrest as [H1 _]. rewrite Nat.add_0_r in H1. congruence.
    + destruct (IH {| attempts := S (attempts st); lastSize := -1;
                      stableChecks := O |} (S (S j))) as [Ht Ha].
      * lia.
      * unfold hit. cbn [attempts lastSize stableChecks]. shift_obs.
      * split; [exact Ht|]. cbn [attempts] in Ha. lia.
  - unfold hit in Hhit. destruct Hhit as (Hpos & Hobsk & Hrest).
    destruct k as [|[|[|j]]].
    + rewrite Nat.add_0_r in Hobsk. congruence.
    + destruct Hrest. congruence.
    + destruct Hrest as [H1 _]. rewrite Nat.add_0_r in H1. congruence.
    + destruct (IH {| attempts := S (attempts st); lastSize := -1;
                      stableChecks := O |} (S (S j))) as [Ht Ha].
      * lia.
      * unfold hit. cbn [attempts lastSize stableChecks]. shift_obs.
      * split; [exact Ht|]. cbn [attempts] in Ha. lia.
  - destruct (stable_step cur (lastSize st) (stableChecks st)) as [Hne Hge].
    set (stable := if (0 <? cur) && (cur =? lastSize st)
                   then S (stableChecks st) else O) in *.
    unfold requiredStableChecks.
    destruct (Nat.leb_spec 2 stable) as [Hreq|Hreq].
    + cbn [fst snd attempts]. split; [reflexivity | lia].
    + unfold hit in Hhit. destruct Hhit as (Hpos & Hobsk & Hrest).
      destruct k as [|k'].
      * exfalso. rewrite Nat.add_0_r in Hobsk. destruct Hrest as [Hl Hs].
        assert (cur = s) by congruence. subst cur.
        assert (2 <= stable)%nat by (apply Hge; lia). lia.
      * destruct (IH {| attempts := S (attempts st); lastSize := cur;
                        stableChecks := stable |} k') as [Ht Ha].
        -- lia.
        -- unfold hit. cbn [attempts lastSize stableChecks].
           destruct k' as [|[|j]].
           ++ destruct Hrest as [Hl Hs].
              assert (cur = s) by congruence. subst cur.
              assert (stable <> O) by (apply Hne; lia). shift_obs.
           ++ destruct Hrest as [H1 H2]. rewrite Nat.add_0_r in H1.
              assert (cur = s) by congruence. subst cur. shift_obs.
           ++ shift_obs.
        -- split; [exact Ht|]. cbn [attempts] in Ha. lia.
Qed.

Lemma waitForFile_loop_attempts (obs : nat -> FileObs) (remaining : nat)
    (st : WatchState) :
  (stableChecks st < attempts st)%nat
  \/ (stableChecks st = O /\ lastSize st <= 0) ->
  fst (waitForFile_loop obs remaining st) = true ->
  (2 <= attempts (snd (waitForFile_loop obs remaining st)))%nat.
Proof.
  revert st. induction remaining as [|r IH]; intros st Hinv; [discriminate|].
  cbn [waitForFile_loop].
  destruct (obs (attempts st)) as [| |cur].
  - apply IH. cbn [attempts lastSize stableChecks]. left. lia.
  - apply IH. cbn [attempts lastSize stableChecks]. left. lia.
  - destruct (stable_step cur (lastSize st) (stableChecks st)) as [Hne Hge].
    assert (Hle : ((if (0 <? cur)%Z && (cur =? lastSize st)%Z
                    then S (stableChecks st) else O) <= S (stableChecks st))%nat)
      by (destruct ((0 <? cur) && (cur =? lastSize st)); lia).
    set (stable := if (0 <? cur) && (cur =? lastSize st)
                   then S (stableChecks st) else O) in *.
    unfold requiredStableChecks.
    destruct (Nat.leb_spec 2 stable) as [Hreq|Hreq].
    + intros _. cbn [snd attempts]. apply Hge in Hreq. lia.
    + apply IH. cbn [attempts lastSize stableChecks]. left.
      destruct Hinv as [Hlt | [Hz Hl]]; [lia|].
      assert (stable = O); [|lia].
      destruct stable; [reflexivity|].
      assert (0 < cur /\ cur = lastSize st) by (apply Hne; discriminate). lia.
Qed.

(** X1.  Whatever number of polls the timeout grants, the watcher says that
    the file is ready at its third poll at the earliest: a run that is
    granted fewer than three polls never finds the file, and a positive
    answer comes after two sleeps, a second, or more. *)
Theorem waitForFile_true_from_third_poll (obs : nat -> FileObs)
    (granted : nat) :
  let r := waitForFile_loop obs granted watch_start in
  fst r = true ->
  (3 <= granted)%nat /\ (2 <= attempts (snd r))%nat /\ 1000 <= slept_ms (snd r).
Proof.
  intros r Htrue. subst r.
  assert (Hatt : (2 <= attempts (snd (waitForFile_loop obs granted watch_start)))%nat).
  { apply waitForFile_loop_attempts; [|exact Htrue].
    right. cbn. split; [reflexivity | lia]. }
  split; [|split; [exact Hatt | unfold slept_ms; lia]].
  apply waitForFile_loop_hit in Htrue.
  destruct Htrue as (k & s & Hk & Hpos & Hobs & Hrest).
  unfold watch_start in Hrest.
  destruct k as [|[|j]]; cbn [lastSize stableChecks] in Hrest; lia.
Qed.

Lemma waitForFile_true_from_third_poll_witness :
  let r := waitForFile_loop (fun _ => Size 5) 3 watch_start in
  (3 <= 3)%nat /\ (2 <= attempts (snd r))%nat /\ 1000 <= slept_ms (snd r).
Proof.
  exact (waitForFile_true_from_third_poll (fun _ => Size 5) 3 eq_refl).
Defined.

(** X2.  A longer timeout never turns a file that was found ready into a
    timeout. *)
Theorem waitForFile_monotone (obs : nat -> FileObs) (t t' : Z) :
  t <= t' ->
  fst (waitForFile_run obs t) = true -> fst (waitForFile_run obs t') = true.
Proof.
  intros Hle. unfold waitForFile_run, maxAttempts.
  rewrite !waitForFile_loop_hit. intros (k & s & Hk & Hhit).
  exists k, s. split; [lia | exact Hhit].
Qed.

Lemma waitForFile_monotone_witness :
  fst (waitForFile_run (fun _ => Size 5) 120) = true.
Proof.
  apply (waitForFile_monotone (fun _ => Size 5) 3 120); [lia | reflexivity].
Defined.

(** X3.  A file that keeps one positive size from poll [n] on is found ready
    at poll [n + 2] at the latest, when the timeout leaves room for that
    poll. *)
Theorem waitForFile_ready_two_polls_after_stop (obs : nat -> FileObs)
    (timeoutSeconds : Z) (n : nat) (s : Z) :
  0 < s ->
  (forall k, (n <= k)%nat -> obs k = Size s) ->
  (n + 2 < Z.to_nat timeoutSeconds)%nat ->
  fst (waitForFile_run obs timeoutSeconds) = true /\
  (attempts (snd (waitForFile_run obs timeoutSeconds)) <= n + 2)%nat.
Proof.
  intros Hpos Hstable Hroom. unfold waitForFile_run, maxAttempts.
  destruct (waitForFile_loop_first_hit obs (Z.to_nat timeoutSeconds)
              watch_start (S (S n)) s) as [Ht Ha]; [lia | |].
  - unfold hit, watch_start. cbn [attempts lastSize stableChecks].
    split; [exact Hpos|]. rewrite !Nat.add_0_l.
    split; [apply Hstable; lia|]. split; apply Hstable; lia.
  - split; [exact Ht|]. cbn [watch_start attempts] in Ha. lia.
Qed.

Lemma waitForFile_ready_two_polls_after_stop_witness :
  let obs := fun k : nat => if (k <? 4)%nat then Size (Z.of_nat k) else Size 9 in
  fst (waitForFile_run obs 120) = true /\
  (attempts (snd (waitForFile_run obs 120)) <= 4 + 2)%nat.
Proof.
  intros obs.
  apply (waitForFile_ready_two_polls_after_stop obs 120 4 9); [lia | | vm_compute; lia].
  intros k Hk. unfold obs. destruct (Nat.ltb_spec k 4); [lia | reflexivity].
Defined.

(** X4.  A file that is never seen with a positive size (missing, unreadable
    or empty at every poll) is never found ready, whatever the timeout. *)
Theorem waitForFile_empty_never_ready (obs : nat -> FileObs)
    (timeoutSeconds : Z) :
  (forall k s, obs k = Size s -> s <= 0) ->
  fst (waitForFile_run obs timeoutSeconds) = false.
Proof.
  intros Hempty.
  destruct (fst (waitForFile_run obs timeoutSeconds)) eqn:E; [|reflexivity].
  unfold waitForFile_run, maxAttempts in E.
  apply waitForFile_loop_hit in E as (k & s & _ & Hpos & Hobs & _).
  specialize (Hempty _ _ Hobs). lia.
Qed.

Lemma waitForFile_empty_never_ready_witness :
  fst (waitForFile_run (fun _ => Size 0) 120) = false.
Proof.
  apply (waitForFile_empty_never_ready (fun _ => Size 0) 120).
  intros k s H. injection H as <-. lia.
Defined.

(** ** Further properties of the keyword search *)

Lemma append_cons (c : Ascii.ascii) (s t : string) :
  String c s +:+ t = String c (s +:+ t).
Proof. reflexivity. Qed.

Lemma append_nil_l (t : string) : "" +:+ t = t.
Proof. reflexivity. Qed.

Lemma append_nil_r (s : string) : s +:+ "" = s.
Proof. induction s as [|c s IH]; [reflexivity|]. rewrite append_cons, IH. reflexivity. Qed.

Lemma prefix_spec (sub s : string) :
  String.prefix sub s = true <-> exists after, s = sub +:+ after.
Proof.
  revert s. induction sub as [|c sub IH]; intros s.
  - split; [intros _; exists s; reflexivity | intros _; destruct s; reflexivity].
  - destruct s as [|c' s]; cbn [String.prefix];
      [split; [discriminate | intros [? ?]; discriminate]|].
    destruct (Ascii.ascii_dec c c') as [->|Hne].
    + rewrite IH. split; intros [after H]; exists after;
        rewrite append_cons in *; congruence.
    + split; [discriminate|]. intros [after H]. rewrite append_cons in H.
      congruence.
Qed.

Lemma includes_spec (s sub : string) :
  includes s sub = true <-> substring_of sub s.
Proof.
  unfold substring_of. induction s as [|c s IH]; cbn [includes];
    rewrite orb_true_iff, prefix_spec.
  - split.
    + intros [[after H] | H]; [|discriminate]. exists "", after. exact H.
    + intros (before & after & H). left.
      destruct before as [|c' before]; [exists after; exact H|].
      rewrite append_cons in H. discriminate.
  - rewrite IH. split.
    + intros [[after H] | (before & after & H)].
      * exists "", after. exact H.
      * exists (String c before), after. rewrite append_cons. congruence.
    + intros (before & after & H). destruct before as [|c' before].
      * left. exists after. exact H.
      * right. exists before, after. rewrite append_cons in H. congruence.
Qed.

(** X5.  The filter of the personal library keeps exactly the entries whose
    title or artist contains the keyword; the two comparisons for equality
    add nothing to the two [includes]. *)
Theorem matchesKeyword_iff_substring (songKeyWord : string) (s : CloudSong) :
  matchesKeyword songKeyWord s = true <->
  substring_of songKeyWord (c_songName s) \/
  substring_of songKeyWord (c_singerName s).
Proof.
  unfold matchesKeyword. rewrite !orb_true_iff, !includes_spec.
  split; [|tauto].
  intros [[[H | H] | H] | H]; auto.
  - left. apply String.eqb_eq in H. rewrite H. exists "", "".
    rewrite append_nil_l, append_nil_r. reflexivity.
  - right. apply String.eqb_eq in H. rewrite H. exists "", "".
    rewrite append_nil_l, append_nil_r. reflexivity.
Qed.

(** X6.  The [limit] sent to the catalog is never negative, and with a
    non-negative [songRequestMaxList] the entries taken from the personal
    library and that limit add up to it: the library alone never makes the
    list longer than configured. *)
Theorem searchCount_bounds (cfg : Config) (matched : list CloudSong) :
  0 <= searchCount cfg matched /\
  Z.of_nat (length (pushMatched cfg matched)) + searchCount cfg matched
  = Z.max 0 (songRequestMaxList cfg).
Proof.
  unfold searchCount, pushMatched, songListCount. rewrite length_map, length_take.
  destruct (Z.geb_spec (Z.of_nat (length matched)) (songRequestMaxList cfg)); lia.
Qed.

(** ** The session store *)

Lemma snd_bind {A B} (P : World -> Prop) (m : M A) (k : A -> M B) (w : World) :
  (forall a w1, m w = (Returned a, w1) -> P (snd (k a w1))) ->
  (forall err w1, m w = (Raised err, w1) -> P w1) ->
  P (snd (bind m k w)).
Proof.
  intros Hok Hko. unfold bind. destruct (m w) as [[a|err] w1]; cbn; eauto.
Qed.

Lemma keeps_ret {A B} (proj : World -> B) (a : A) : keeps proj (ret a).
Proof. intros w. reflexivity. Qed.

Lemma keeps_raise {A B} (proj : World -> B) (err : string) :
  keeps proj (@raise A err).
Proof. intros w. reflexivity. Qed.

Lemma keeps_get {A B} (proj : World -> B) (f : World -> A) : keeps proj (get f).
Proof. intros w. reflexivity. Qed.

Lemma keeps_modify {B} (proj : World -> B) (f : World -> World) :
  (forall w, proj (f w) = proj w) -> keeps proj (modify f).
Proof. intros Hf w. apply Hf. Qed.

Lemma keeps_bind {A B C} (proj : World -> C) (m : M A) (k : A -> M B) :
  keeps proj m -> (forall a, keeps proj (k a)) -> keeps proj (bind m k).
Proof.
  intros Hm Hk w. unfold bind. specialize (Hm w).
  destruct (m w) as [[a|err] w1]; cbn in *; [|exact Hm].
  rewrite Hk. exact Hm.
Qed.

Lemma keeps_try_catch {A C} (proj : World -> C) (m : M A) (h : string -> M A) :
  keeps proj m -> (forall err, keeps proj (h err)) -> keeps proj (try_catch m h).
Proof.
  intros Hm Hh w. unfold try_catch. specialize (Hm w).
  destruct (m w) as [[a|err] w1]; cbn in *; [exact Hm|].
  rewrite Hh. exact Hm.
Qed.

Lemma keeps_try_finally {A C} (proj : World -> C) (m : M A) (f : M unit) :
  keeps proj m -> keeps proj f -> keeps proj (try_finally m f).
Proof.
  intros Hm Hf w. unfold try_finally. specialize (Hm w).
  destruct (m w) as [[a|err] w1]; cbn in *; specialize (Hf w1);
    destruct (f w1) as [[[]|err'] w2]; cbn in *; congruence.
Qed.

Lemma keeps_detached {A C} (proj : World -> C) (m : M A) :
  keeps proj m -> keeps proj (detached m).
Proof. intros Hm w. apply Hm. Qed.

Lemma keeps_songInfo_pickApi (cfg : Config) (a b : string) :
  keeps redis_songInfo (pickApi cfg a b).
Proof. intros w. apply pickApi_frame. Qed.

Lemma keeps_songInfo_checkCooike (login : LoginResponse) (ck : CookieType) :
  keeps redis_songInfo (checkCooike login ck).
Proof.
  intros w. destruct login as [|[[profile|]|]], ck; reflexivity.
Qed.

Lemma keeps_songInfo_neteasePlay (cfg : Config) (env : DeliveryEnv)
    (songInfo : list Track) (pickNumber : Z) (isCkExpired isCloudSong : bool) :
  keeps redis_songInfo
    (neteasePlay cfg env songInfo pickNumber isCkExpired isCloudSong).
Proof.
  unfold neteasePlay. apply keeps_bind.
  - unfold resolveTrack. destruct (urlResp env); [apply keeps_raise|].
    destruct (js_index _ _); [|apply keeps_raise].
    destruct (wikiResp env); [apply keeps_raise|].
    apply keeps_bind; [|intros; apply keeps_ret].
    destruct (_ || _).
    + unfold musicTempApi. destruct (tempResp env); [apply keeps_raise|].
      apply keeps_bind; [apply keeps_modify; reflexivity|].
      intros; apply keeps_ret.
    + apply keeps_bind; [apply keeps_modify; reflexivity|].
      intros; apply keeps_ret.
  - intros resolved. apply keeps_bind; [apply keeps_modify; reflexivity|].
    intros _. unfold deliver. apply keeps_try_catch; [|intros; apply keeps_ret].
    apply keeps_bind.
    + unfold downloadAudio. destruct (download env); [|apply keeps_raise].
      apply keeps_bind; [apply keeps_modify; reflexivity|].
      intros; apply keeps_ret.
    + intros path. unfold afterDownload. destruct (negb _); [|apply keeps_ret].
      apply keeps_try_finally.
      * apply keeps_bind.
        -- unfold uploadGroupFile. destruct (groupFileOk env);
             [apply keeps_ret | apply keeps_raise].
        -- intros _. destruct (_ && _);
             [apply keeps_modify; reflexivity | apply keeps_ret].
      * apply keeps_modify. reflexivity.
Qed.

Lemma find_findIndex {A} (p : A -> bool) (l : list A) :
  findIndex p l ≫= (fun i => l !! i) = List.find p l.
Proof.
  induction l as [|x l IH]; cbn; [reflexivity|].
  destruct (p x); cbn; [reflexivity|].
  rewrite <- IH. destruct (findIndex p l); reflexivity.
Qed.

Lemma upsertSession_cons (p : Session -> bool) (musicDate x : Session)
    (l : list Session) :
  upsertSession (findIndex p (x :: l)) musicDate (x :: l)
  = if p x then musicDate :: l
    else x :: upsertSession (findIndex p l) musicDate l.
Proof.
  cbn [findIndex]. destruct (p x); [reflexivity|].
  destruct (findIndex p l); reflexivity.
Qed.

Lemma find_upsert_same (g : Z) (musicDate : Session) (l : list Session) :
  group_id musicDate = g ->
  List.find (fun item => group_id item =? g)
    (upsertSession (findIndex (fun item => group_id item =? g) l) musicDate l)
  = Some musicDate.
Proof.
  intros Hg. induction l as [|x l IH].
  - cbn. rewrite Hg, Z.eqb_refl. reflexivity.
  - rewrite upsertSession_cons.
    destruct (group_id x =? g) eqn:E; cbn [List.find].
    + rewrite Hg, Z.eqb_refl. reflexivity.
    + rewrite E. exact IH.
Qed.


Lemma ids_upsert (g : Z) (musicDate : Session) (l : list Session) :
  group_id musicDate = g ->
  map group_id
    (upsertSession (findIndex (fun item => group_id item =? g) l) musicDate l)
  = if bool_decide (g ∈ map group_id l) then map group_id l
    else map group_id l ++ [g].
Proof.
  intros Hg. induction l as [|x l IH].
  - cbn. rewrite Hg. reflexivity.
  - rewrite upsertSession_cons.
    destruct (Z.eqb_spec (group_id x) g) as [Hx|Hx]; cbn [map].
    + rewrite bool_decide_eq_true_2 by (rewrite Hx; apply list_elem_of_here).
      congruence.
    + rewrite IH. destruct (decide (g ∈ map group_id l)) as [Hin|Hin].
      * rewrite !bool_decide_eq_true_2; [reflexivity | | exact Hin].
        apply list_elem_of_further. exact Hin.
      * rewrite !bool_decide_eq_false_2; [reflexivity | | exact Hin].
        intros [->|?]%elem_of_cons; [congruence | contradiction].
Qed.

Lemma snd_bind_ret {A B} (m : M A) (b : B) (w : World) :
  snd (bind m (fun _ => ret b) w) = snd (m w).
Proof. unfold bind. destruct (m w) as [[a|err] w1]; reflexivity. Qed.

Lemma keeps_songInfo_getCloudSong (cfg : Config) (a b : string)
    (pages : list CloudPage) (cloudUpdate : bool) :
  keeps redis_songInfo (getCloudSong cfg a b pages cloudUpdate).
Proof.
  unfold getCloudSong. apply keeps_bind; [apply keeps_get|].
  intros stored. destruct (_ || _); [|apply keeps_ret].
  apply keeps_bind; [apply keeps_songInfo_pickApi|]. intros _.
  apply keeps_bind; [apply keeps_modify; reflexivity|].
  intros _. apply keeps_ret.
Qed.

Lemma keeps_songInfo_pickSong_play (cfg : Config) (g : Z) (number : nat)
    (env : PlayEnv) :
  keeps redis_songInfo (pickSong_play cfg g number env).
Proof.
  unfold pickSong_play. apply keeps_bind; [apply keeps_get|].
  intros [songInfo|]; [|apply keeps_raise].
  destruct (_ ≫= _) as [session|]; [|apply keeps_raise].
  destruct (js_index _ _) as [selectedSong|]; [|apply keeps_raise].
  apply keeps_bind; [apply keeps_songInfo_checkCooike|]. intros isCk.
  apply keeps_detached, keeps_songInfo_neteasePlay.
Qed.

Lemma pickSong_search_store (cfg : Config) (a b : string)
    (formatTime : Z -> string) (g : Z) (songKeyWord : string)
    (songInfo : list Session) (saveId : option nat) (pages : list CloudPage)
    (search : SearchResponse) (detail : DetailResponse) (w : World) :
  let w' := snd (pickSong_search cfg a b formatTime g songKeyWord songInfo
                   saveId pages search detail w) in
  redis_songInfo w' = redis_songInfo w \/
  exists musicDate,
    group_id musicDate = g /\
    redis_songInfo w' = Some (upsertSession saveId musicDate songInfo).
Proof.
  unfold pickSong_search. apply snd_bind.
  - intros cloudSongList w1 H1.
    pose proof (keeps_songInfo_getCloudSong cfg a b pages false w) as Hs.
    rewrite H1 in Hs. cbn in Hs.
    destruct search as [|songs]; [left; exact Hs|].
    destruct (_ || _); [|left; exact Hs].
    destruct detail as [|details]; [left; exact Hs|].
    right. eexists. split; [|reflexivity]. reflexivity.
  - intros err w1 H1.
    pose proof (keeps_songInfo_getCloudSong cfg a b pages false w) as Hs.
    rewrite H1 in Hs. left. exact Hs.
Qed.

Lemma pickSong_store (cfg : Config) (a b : string) (formatTime : Z -> string)
    (e : Event) (pages : list CloudPage) (search : SearchResponse)
    (detail : DetailResponse) (env : PlayEnv) (w : World) :
  let w' := snd (pickSong cfg a b formatTime e pages search detail env w) in
  let songInfo := default [] (redis_songInfo w) in
  redis_songInfo w' = redis_songInfo w \/
  exists g musicDate,
    truthy_group e = Some g /\ group_id musicDate = g /\
    redis_songInfo w'
    = Some (upsertSession (findIndex (fun item => group_id item =? g) songInfo)
              musicDate songInfo).
Proof.
  unfold pickSong. destruct (useNeteaseSongRequest cfg); cbn [negb];
    [|left; reflexivity].
  apply snd_bind.
  - intros api w1 H1.
    pose proof (keeps_songInfo_pickApi cfg a b w) as Hs.
    rewrite H1 in Hs. cbn in Hs.
    destruct (truthy_group e) as [g|]; [|left; exact Hs].
    rewrite bind_get, Hs. destruct (e_msg e) as [songKeyWord|number|].
    + rewrite snd_bind_ret.
      destruct (pickSong_search_store cfg a b formatTime g songKeyWord
                  (default [] (redis_songInfo w))
                  (findIndex (fun item => group_id item =? g)
                     (default [] (redis_songInfo w)))
                  pages search detail w1) as [Hk | (md & Hg & Hst)].
      * left. congruence.
      * right. exists g, md. auto.
    + rewrite snd_bind_ret. left.
      rewrite (keeps_songInfo_pickSong_play cfg g number env w1). exact Hs.
    + left. exact Hs.
  - intros err w1 H1.
    pose proof (keeps_songInfo_pickApi cfg a b w) as Hs.
    rewrite H1 in Hs. left. exact Hs.
Qed.

Lemma storedSession_find (g : Z) (w : World) :
  storedSession g w
  = redis_songInfo w ≫= List.find (fun item => group_id item =? g).
Proof.
  unfold storedSession. destruct (redis_songInfo w) as [l|]; [|reflexivity].
  cbn. apply find_findIndex.
Qed.

Lemma pickSong_among_alone (cfg : Config) (a b : string)
    (formatTime : Z -> string) (e : Event) (pages : list CloudPage)
    (search : SearchResponse) (detail : DetailResponse) (env : PlayEnv)
    (w : World) :
  pickSong_among cfg a b formatTime (fun w0 => w0) (fun w0 => w0) e pages
    search detail env w
  = pickSong cfg a b formatTime e pages search detail env w.
Proof.
  unfold pickSong_among, pickSong.
  destruct (useNeteaseSongRequest cfg); [|reflexivity]. cbn [negb].
  apply bind_cong. intros _.
  destruct (truthy_group e) as [g|]; [|reflexivity].
  rewrite !bind_get. destruct (e_msg e) as [songKeyWord|number|];
    reflexivity.
Qed.




(** X8.  A store that holds at most one session per conversation still does
    after [pickSong]. *)
Theorem pickSong_keeps_one_session_per_group (cfg : Config) (a b : string)
    (formatTime : Z -> string) (e : Event) (pages : list CloudPage)
    (search : SearchResponse) (detail : DetailResponse) (env : PlayEnv)
    (w : World) :
  NoDup (map group_id (default [] (redis_songInfo w))) ->
  NoDup (map group_id
           (default []
              (redis_songInfo
                 (snd (pickSong cfg a b formatTime e pages search detail env w))))).
Proof.
  intros Hnd.
  destruct (pickSong_store cfg a b formatTime e pages search detail env w)
    as [Hsame | (g & md & Hg & Hmd & Hst)].
  - rewrite Hsame. exact Hnd.
  - rewrite Hst. cbn [from_option]. unfold Datatypes.id at 1.
    rewrite ids_upsert by exact Hmd.
    case_bool_decide as Hin; [exact Hnd|].
    apply NoDup_app. split; [exact Hnd|]. split.
    + intros x Hx [->|Hcontra%elem_of_nil]%elem_of_cons; contradiction.
    + apply NoDup_singleton.
Qed.

Lemma pickSong_keeps_one_session_per_group_witness :
  let w := set_songInfo (Some [ {| group_id := 4; data := [example_song] |} ])
             initial_world in
  NoDup (map group_id
           (default []
              (redis_songInfo
                 (snd (pickSong example_cfg "" "" (fun _ => "")
                         (example_event (CmdSearch "b")) [] (SearchOk (Some []))
                         (DetailOk [])
                         {| login := LoginFailed;
                            delivery := example_delivery true |} w))))).
Proof.
  intros w.
  apply (pickSong_keeps_one_session_per_group example_cfg "" "" (fun _ => "")
           (example_event (CmdSearch "b")) [] (SearchOk (Some [])) (DetailOk [])
           {| login := LoginFailed; delivery := example_delivery true |} w).
  apply NoDup_singleton.
Defined.

Lemma pickSong_found_run (cfg : Config) (a b : string)
    (formatTime : Z -> string) (e : Event) (g : Z) (songKeyWord : string)
    (pages : list CloudPage) (songs : list SearchSong)
    (details : list SongDetail) (env : PlayEnv) (w : World) :
  useNeteaseSongRequest cfg = true ->
  truthy_group e = Some g ->
  e_msg e = CmdSearch songKeyWord ->
  let songInfo := default [] (redis_songInfo w) in
  let musicDate :=
    {| group_id := g;
       data := mergedList cfg formatTime
                 (matchedSongs songKeyWord (cloudSongListSeen pages w))
                 (Some songs) details |} in
  exists w2,
    redis_songInfo w2 = redis_songInfo w /\ replies w2 = replies w /\
    pickSong cfg a b formatTime e pages (SearchOk (Some songs))
      (DetailOk details) env w
    = (Returned None,
       add_reply (ReplyImg "pick-song")
         (set_songInfo
            (Some (upsertSession
                     (findIndex (fun item => group_id item =? g) songInfo)
                     musicDate songInfo)) w2)).
Proof.
  intros Hon Hg Hmsg songInfo musicDate. unfold pickSong.
  rewrite Hon, Hg, Hmsg. cbn [negb].
  match goal with
  | |- context [bind (pickApi _ _ _) ?k w] =>
      destruct (bind_pickApi cfg a b k w) as (api & w1 & Hs & Hc & Hr & ->)
  end.
  rewrite bind_get. unfold pickSong_search.
  destruct (getCloudSong_search cfg a b pages w1) as (Hl & Hs' & Hr').
  assert (Hseen : cloudSongListSeen pages w1 = cloudSongListSeen pages w)
    by (unfold cloudSongListSeen; rewrite Hc; reflexivity).
  rewrite Hseen in Hl. unfold bind.
  destruct (getCloudSong cfg a b pages false w1) as [[l|err] w2];
    cbn in Hl, Hs', Hr'; [|discriminate].
  injection Hl as ->.
  rewrite bool_decide_eq_true_2 by eauto. cbn [orb].
  unfold modify, reply, add_reply, ret. cbn. rewrite Hs.
  exists w2. repeat split; congruence.
Qed.

Lemma pickSong_found_stored (cfg : Config) (a b : string)
    (formatTime : Z -> string) (e : Event) (g : Z) (songKeyWord : string)
    (pages : list CloudPage) (songs : list SearchSong)
    (details : list SongDetail) (env : PlayEnv) (w : World) :
  useNeteaseSongRequest cfg = true ->
  truthy_group e = Some g ->
  e_msg e = CmdSearch songKeyWord ->
  storedSession g
    (snd (pickSong cfg a b formatTime e pages (SearchOk (Some songs))
            (DetailOk details) env w))
  = Some {| group_id := g;
            data := mergedList cfg formatTime
                      (matchedSongs songKeyWord (cloudSongListSeen pages w))
                      (Some songs) details |}.
Proof.
  intros Hon Hg Hmsg.
  destruct (pickSong_found_run cfg a b formatTime e g songKeyWord pages songs
              details env w Hon Hg Hmsg) as (w2 & Hs & Hr & Heq).
  rewrite Heq. cbn [snd]. rewrite storedSession_find. cbn.
  apply find_upsert_same. reflexivity.
Qed.

(** X9.  A search to which the catalog answers with a list of songs, and the
    detail lookup with details, stores for the conversation exactly the
    merged list, replies with the rendered list and nothing else. *)
Theorem pickSong_search_stores_merged_list (cfg : Config) (a b : string)
    (formatTime : Z -> string) (e : Event) (g : Z) (songKeyWord : string)
    (pages : list CloudPage) (songs : list SearchSong)
    (details : list SongDetail) (env : PlayEnv) (w : World) :
  useNeteaseSongRequest cfg = true ->
  truthy_group e = Some g ->
  e_msg e = CmdSearch songKeyWord ->
  let r := pickSong cfg a b formatTime e pages (SearchOk (Some songs))
             (DetailOk details) env w in
  fst r = Returned None /\
  storedSession g (snd r)
  = Some {| group_id := g;
            data := mergedList cfg formatTime
                      (matchedSongs songKeyWord (cloudSongListSeen pages w))
                      (Some songs) details |} /\
  replies (snd r) = replies w ++ [ReplyImg "pick-song"].
Proof.
  intros Hon Hg Hmsg r.
  destruct (pickSong_found_run cfg a b formatTime e g songKeyWord pages songs
              details env w Hon Hg Hmsg) as (w2 & Hs & Hr & Heq).
  subst r. rewrite Heq. cbn [fst snd]. split; [reflexivity|].
  split.
  - rewrite storedSession_find. cbn. apply find_upsert_same. reflexivity.
  - cbn. rewrite Hr. reflexivity.
Qed.

Lemma pickSong_search_stores_merged_list_witness :
  let songs := [ {| s_id := 7; s_name := "勇气"; s_artists := ["棉子"];
                    s_duration := 200000 |} ] in
  let r := pickSong example_cfg "" "" (fun _ => "03:20")
             (example_event (CmdSearch "勇气")) [] (SearchOk (Some songs))
             (DetailOk [])
             {| login := LoginFailed; delivery := example_delivery true |}
             initial_world in
  storedSession 9 (snd r)
  = Some {| group_id := 9;
            data := [ {| id := 7; songName := "勇气"; singerName := Some "棉子";
                         duration := "03:20"; cover := None |} ] |}.
Proof.
  intros songs.
  exact (proj1 (proj2 (pickSong_search_stores_merged_list example_cfg "" ""
                         (fun _ => "03:20") (example_event (CmdSearch "勇气")) 9
                         "勇气" [] songs []
                         {| login := LoginFailed;
                            delivery := example_delivery true |}
                         initial_world eq_refl eq_refl eq_refl))).
Defined.

(** X10.  Right after such a search, [#听N] with N within the list hands to
    the delivery the merged list and the position N-1 in it: the track that
    was displayed as number N, probed with the library credential when its
    duration is the mark of the personal library and with the playback
    credential otherwise. *)
Theorem pickSong_play_after_search (cfg : Config) (a b : string)
    (formatTime : Z -> string) (e : Event) (g : Z) (songKeyWord : string)
    (pages : list CloudPage) (songs : list SearchSong)
    (details : list SongDetail) (env env' : PlayEnv) (w : World)
    (number : nat) (selectedSong : Track) :
  useNeteaseSongRequest cfg = true ->
  truthy_group e = Some g ->
  e_msg e = CmdSearch songKeyWord ->
  let merged := mergedList cfg formatTime
                  (matchedSongs songKeyWord (cloudSongListSeen pages w))
                  (Some songs) details in
  merged !! number = Some selectedSong ->
  let w' := snd (pickSong cfg a b formatTime e pages (SearchOk (Some songs))
                   (DetailOk details) env w) in
  let isCloudSong := String.eqb (duration selectedSong) "云盘" in
  pickSong_play cfg g (S number) env' w'
  = bind (checkCooike (login env') (if isCloudSong then CkCloud else CkSong))
      (fun isCkExpired =>
         detached (neteasePlay cfg (delivery env') merged (Z.of_nat number)
                     isCkExpired isCloudSong)) w'.
Proof.
  intros Hon Hg Hmsg merged Hsel w' isCloudSong.
  pose proof (pickSong_found_stored cfg a b formatTime e g songKeyWord pages
                songs details env w Hon Hg Hmsg) as Hst.
  fold merged in Hst. fold w' in Hst.
  unfold pickSong_play. rewrite bind_get.
  unfold storedSession in Hst.
  destruct (redis_songInfo w') as [songInfo|]; [|discriminate].
  cbn in Hst. rewrite Hst. cbn [data].
  replace (Z.of_nat (S number) - 1) with (Z.of_nat number) by lia.
  unfold js_index. destruct (Z.ltb_spec (Z.of_nat number) 0); [lia|].
  rewrite Nat2Z.id, Hsel. reflexivity.
Qed.

Lemma pickSong_play_after_search_witness :
  let songs := [ {| s_id := 7; s_name := "勇气"; s_artists := ["棉子"];
                    s_duration := 200000 |} ] in
  let env := {| login := LoginFailed; delivery := example_delivery true |} in
  let merged := [ {| id := 7; songName := "勇气"; singerName := Some "棉子";
                     duration := "03:20"; cover := None |} ] in
  let w' := snd (pickSong example_cfg "" "" (fun _ => "03:20")
                   (example_event (CmdSearch "勇气")) [] (SearchOk (Some songs))
                   (DetailOk []) env initial_world) in
  pickSong_play example_cfg 9 1 env w'
  = bind (checkCooike (login env) CkSong)
      (fun isCkExpired =>
         detached (neteasePlay example_cfg (delivery env) merged 0
                     isCkExpired false)) w'.
Proof.
  intros songs env merged.
  exact (pickSong_play_after_search example_cfg "" "" (fun _ => "03:20")
           (example_event (CmdSearch "勇气")) 9 "勇气" [] songs [] env env
           initial_world 0
           {| id := 7; songName := "勇气"; singerName := Some "棉子";
              duration := "03:20"; cover := None |}
           eq_refl eq_refl eq_refl eq_refl).
Defined.

(** ** Further properties of the credential probe and of the library *)

(** X11.  The only thing a probe ever writes is the account id, and only a
    playback-scoped probe that finds a profile writes it; a library-scoped
    probe changes nothing at all. *)
Theorem checkCooike_writes_only_account_id (login : LoginResponse)
    (cookieType : CookieType) (w : World) :
  snd (checkCooike login cookieType w)
  = match cookieType, login with
    | CkSong, LoginOk (Some (Some profile)) =>
        set_neteaseUserId (userId profile) w
    | _, _ => w
    end.
Proof. destruct login as [|[[profile|]|]], cookieType; reflexivity. Qed.

Lemma snd_try_catch_ret (m : M unit) (w : World) :
  try_catch m (fun _ => ret tt) w = (Returned tt, snd (m w)).
Proof. unfold try_catch. destruct (m w) as [[[]|err] w1]; reflexivity. Qed.

Lemma keeps_cloud_pickApi (cfg : Config) (a b : string) :
  keeps redis_cloudSongList (pickApi cfg a b).
Proof. intros w. apply pickApi_frame. Qed.

Lemma getCloudSong_result (cfg : Config) (a b : string)
    (pages : list CloudPage) (cloudUpdate : bool) (w : World) :
  let songList := default [] (redis_cloudSongList w) in
  let r := getCloudSong cfg a b pages cloudUpdate w in
  if bool_decide (songList = []) || cloudUpdate then
    fst r = Returned (fetchCloudPages pages songList) /\
    redis_cloudSongList (snd r) = Some (fetchCloudPages pages songList)
  else r = (Returned songList, w).
Proof.
  unfold getCloudSong. rewrite bind_get.
  destruct (_ || _); [|reflexivity].
  match goal with
  | |- context [bind (pickApi _ _ _) ?k w] =>
      destruct (bind_pickApi cfg a b k w) as (api & w1 & _ & _ & _ & ->)
  end.
  split; reflexivity.
Qed.

Lemma fetchCloudPages_upto_endless (answer : nat -> CloudPage)
    (fuel k : nat) (songList : list CloudSong) :
  (forall i, exists entries, answer i = PageOk entries true) ->
  fetchCloudPages_upto answer fuel k songList = None.
Proof.
  intros Hmore. revert k songList.
  induction fuel as [|n IH]; intros k songList; [reflexivity|].
  cbn [fetchCloudPages_upto]. destruct (Hmore k) as [entries ->]. apply IH.
Qed.

Lemma fetchCloudPages_upto_ended (answer : nat -> CloudPage) (fuel k : nat)
    (songList result : list CloudSong) :
  fetchCloudPages_upto answer fuel k songList = Some result ->
  fetchCloudPages (map answer (seq k fuel)) songList = result.
Proof.
  revert k songList. induction fuel as [|n IH]; intros k songList;
    [discriminate|].
  cbn [fetchCloudPages_upto seq map fetchCloudPages].
  destruct (answer k) as [|entries [|]].
  - intros [= <-]. reflexivity.
  - apply IH.
  - intros [= <-]. reflexivity.
Qed.

(** X12.  When the listing of the personal library ends, that is when the
    page loop returns, a refresh leaves in the cache exactly what the loop
    collected from an empty list, whatever the cache held before: two
    refreshes that meet the same answers leave the same snapshot. *)
Theorem songCloudUpdate_caches_ended_listing (cfg : Config) (a b : string)
    (toGBorTB : Z -> string) (answer : nat -> CloudPage) (fuel : nat)
    (collected : list CloudSong) (stat : option CloudStat) (w : World) :
  fetchCloudPages_upto answer fuel O [] = Some collected ->
  redis_cloudSongList
    (snd (songCloudUpdate cfg a b toGBorTB (map answer (seq O fuel)) stat w))
  = Some collected.
Proof.
  intros Hend. apply fetchCloudPages_upto_ended in Hend.
  set (pages := map answer (seq O fuel)) in *.
  unfold songCloudUpdate. rewrite snd_try_catch_ret. cbn [fst snd].
  unfold cleanCloudData. apply snd_bind; [|discriminate].
  intros [] w1 H1. injection H1 as <-.
  pose proof (getCloudSong_result cfg a b pages true
                (set_cloudSongList (Some []) w)) as Hres.
  cbn zeta in Hres. rewrite orb_true_r in Hres.
  apply snd_bind.
  - intros l w2 H2. rewrite H2 in Hres. cbn in Hres.
    rewrite Hend in Hres. destruct Hres as [_ Hc].
    assert (Hk : keeps redis_cloudSongList
                   (bind (reply (ReplyText "更新成功"))
                      (fun _ => myCloud cfg a b toGBorTB stat))).
    { apply keeps_bind; [apply keeps_modify; reflexivity|]. intros _.
      unfold myCloud. apply keeps_bind; [apply keeps_cloud_pickApi|].
      intros _. destruct stat;
        [apply keeps_modify; reflexivity | apply keeps_raise]. }
    rewrite Hk. exact Hc.
  - intros err w2 H2. rewrite H2 in Hres. cbn in Hres.
    destruct Hres as [Hf _]. discriminate.
Qed.

Lemma songCloudUpdate_caches_ended_listing_witness :
  let answer := fun k : nat =>
    match k with
    | O => PageOk [ {| songId := 5; ce_songName := "b"; artist := None |} ] true
    | _ => PageOk [] false
    end in
  let stale := [ {| c_songName := "old"; c_id := 1; c_singerName := "a";
                    c_duration := "云盘" |} ] in
  redis_cloudSongList
    (snd (songCloudUpdate example_cfg "" "" (fun _ => "")
            (map answer (seq O 2)) None
            (set_cloudSongList (Some stale) initial_world)))
  = Some [ {| c_songName := "b"; c_id := 5; c_singerName := "喵喵~";
              c_duration := "云盘" |} ].
Proof.
  intros answer stale.
  exact (songCloudUpdate_caches_ended_listing example_cfg "" "" (fun _ => "")
           answer 2 _ None (set_cloudSongList (Some stale) initial_world)
           eq_refl).
Defined.

(** X13.  [getCloudSong] never rejects, and the list it resolves with is the
    list the cache holds afterwards: a failed or partial fetch is cached as
    it is. *)
Theorem getCloudSong_returns_cached (cfg : Config) (a b : string)
    (pages : list CloudPage) (cloudUpdate : bool) (w : World) :
  exists songList,
    fst (getCloudSong cfg a b pages cloudUpdate w) = Returned songList /\
    redis_cloudSongList (snd (getCloudSong cfg a b pages cloudUpdate w))
    = Some songList.
Proof.
  pose proof (getCloudSong_result cfg a b pages cloudUpdate w) as Hres.
  cbn zeta in Hres.
  destruct (bool_decide (default [] (redis_cloudSongList w) = [])) eqn:E;
    cbn [orb] in Hres.
  - eexists. exact Hres.
  - destruct cloudUpdate; [eexists; exact Hres|].
    rewrite Hres. cbn. exists (default [] (redis_cloudSongList w)).
    split; [reflexivity|]. apply bool_decide_eq_false in E.
    destruct (redis_cloudSongList w); [reflexivity | contradiction].
Qed.

Lemma fetchCloudPages_Forall (P : CloudSong -> Prop) (pages : list CloudPage)
    (songList : list CloudSong) :
  (forall entry, P (cloudSongOf entry)) ->
  Forall P songList -> Forall P (fetchCloudPages pages songList).
Proof.
  intros HP. revert songList.
  induction pages as [|[|entries hasMore] pages IH]; intros songList Hl; cbn;
    try exact Hl.
  assert (Forall P (songList ++ map cloudSongOf entries)).
  { apply Forall_app. split; [exact Hl|]. apply Forall_fmap, Forall_true.
    intros entry. apply HP. }
  destruct hasMore; [apply IH|]; assumption.
Qed.

(** X14.  Every entry of a freshly fetched personal library carries the mark
    of the library as its duration and an artist that is not empty. *)
Theorem fetchCloudPages_entries_marked (pages : list CloudPage) :
  Forall (fun s => c_duration s = "云盘" /\ c_singerName s <> "")
         (fetchCloudPages pages []).
Proof.
  apply fetchCloudPages_Forall; [|constructor].
  intros entry. split; [reflexivity|]. unfold cloudSongOf. cbn.
  destruct (artist entry) as [name|]; [|discriminate].
  destruct (String.eqb_spec name ""); [discriminate | assumption].
Qed.

(** ** The detail lookup *)

Lemma findIndex_Some {A} (p : A -> bool) (l : list A) (j : nat) :
  findIndex p l = Some j -> exists x, l !! j = Some x /\ p x = true.
Proof.
  revert j. induction l as [|x l IH]; intros j; cbn; [discriminate|].
  destruct (p x) eqn:E.
  - intros [= <-]. exists x. auto.
  - destruct (findIndex p l) as [j'|]; cbn; [|discriminate].
    intros [= <-]. apply (IH j'). reflexivity.
Qed.

Lemma findIndex_None {A} (p : A -> bool) (l : list A) :
  (forall x, x ∈ l -> p x = false) -> findIndex p l = None.
Proof.
  induction l as [|x l IH]; intros Hall; cbn; [reflexivity|].
  rewrite (Hall x) by apply list_elem_of_here.
  rewrite IH; [reflexivity|]. intros y Hy. apply Hall, list_elem_of_further, Hy.
Qed.

Lemma findIndex_unique (data0 : list Track) (i : nat) (t : Track) :
  NoDup (map id data0) -> data0 !! i = Some t ->
  findIndex (fun item => id item =? id t) data0 = Some i.
Proof.
  revert i. induction data0 as [|x l IH]; intros i Hnd Hi; [discriminate|].
  cbn in Hnd. apply NoDup_cons in Hnd as [Hx Hnd]. cbn [findIndex].
  destruct i as [|i]; cbn in Hi.
  - injection Hi as ->. rewrite Z.eqb_refl. reflexivity.
  - destruct (Z.eqb_spec (id x) (id t)) as [Heq|Hne].
    + exfalso. apply Hx. rewrite Heq.
      apply (list_elem_of_fmap_2 id), list_elem_of_lookup. eauto.
    + rewrite (IH i Hnd Hi). reflexivity.
Qed.

Lemma correctEntry_proj {B} (f : Track -> B) (d : SongDetail)
    (data0 : list Track) :
  (forall x, f (renamed d x) = f x) ->
  map f (correctEntry d data0) = map f data0.
Proof.
  intros Hf. unfold correctEntry. destruct (findIndex _ data0); [|reflexivity].
  apply map_alter_same. exact Hf.
Qed.

Lemma correctEntry_other (d : SongDetail) (data0 : list Track) (i : nat)
    (t : Track) :
  data0 !! i = Some t -> d_id d <> id t -> correctEntry d data0 !! i = Some t.
Proof.
  intros Hi Hne. unfold correctEntry.
  destruct (findIndex _ data0) as [j|] eqn:E; [|exact Hi].
  apply findIndex_Some in E as (x & Hj & Hx). apply Z.eqb_eq in Hx.
  rewrite list_lookup_alter_ne; [exact Hi|]. intros ->. congruence.
Qed.

Lemma correctEntry_hit (d : SongDetail) (data0 : list Track) (i : nat)
    (t : Track) :
  NoDup (map id data0) -> data0 !! i = Some t -> id t = d_id d ->
  correctEntry d data0 !! i = Some (renamed d t).
Proof.
  intros Hnd Hi Hid. unfold correctEntry. rewrite <- Hid.
  rewrite (findIndex_unique data0 i t Hnd Hi).
  rewrite list_lookup_alter_eq, Hi. reflexivity.
Qed.

Lemma detailPass_img (details : list SongDetail)
    (acc : gmap Z string * list Track) (k : Z) (c : string) :
  fst (foldl detailStep acc details) !! k = Some c ->
  fst acc !! k = Some c \/
  exists d, d ∈ details /\ d_id d = k /\ c = coverOf d.
Proof.
  revert acc. induction details as [|d ds IH]; intros acc; cbn [foldl];
    [auto|].
  intros H. apply IH in H as [H | (d' & Hin & Hk & Hc)].
  - cbn [fst detailStep] in H. destruct (decide (d_id d = k)) as [Hk|Hk].
    + rewrite Hk, lookup_insert_eq in H. injection H as <-.
      right. exists d. split; [apply list_elem_of_here | auto].
    + rewrite lookup_insert_ne in H by exact Hk. auto.
  - right. exists d'. split; [apply list_elem_of_further, Hin | auto].
Qed.

Lemma detailPass_proj {B} (f : Track -> B) (details : list SongDetail)
    (acc : gmap Z string * list Track) :
  (forall d x, f (renamed d x) = f x) ->
  map f (snd (foldl detailStep acc details)) = map f (snd acc).
Proof.
  intros Hf. revert acc.
  induction details as [|d ds IH]; intros acc; cbn [foldl]; [reflexivity|].
  rewrite IH. cbn [snd detailStep]. apply correctEntry_proj, Hf.
Qed.

Lemma detailPass_other (details : list SongDetail)
    (acc : gmap Z string * list Track) (i : nat) (t : Track) :
  (forall d, d ∈ details -> d_id d <> id t) ->
  snd acc !! i = Some t ->
  snd (foldl detailStep acc details) !! i = Some t /\
  fst (foldl detailStep acc details) !! id t = fst acc !! id t.
Proof.
  revert acc. induction details as [|d ds IH]; intros acc Hall Hi;
    cbn [foldl]; [auto|].
  assert (Hd : d_id d <> id t) by apply Hall, list_elem_of_here.
  destruct (IH (detailStep acc d)) as [H1 H2].
  - intros d' Hd'. apply Hall, list_elem_of_further, Hd'.
  - cbn [snd detailStep]. apply correctEntry_other; assumption.
  - split; [exact H1|]. rewrite H2. cbn [fst detailStep].
    apply lookup_insert_ne. exact Hd.
Qed.

Lemma detailPass_hit (details : list SongDetail)
    (acc : gmap Z string * list Track) (d : SongDetail) (i : nat) (t : Track) :
  NoDup (map id (snd acc)) -> NoDup (map d_id details) -> d ∈ details ->
  snd acc !! i = Some t -> id t = d_id d ->
  snd (foldl detailStep acc details) !! i = Some (renamed d t) /\
  fst (foldl detailStep acc details) !! d_id d = Some (coverOf d).
Proof.
  revert acc. induction details as [|d0 ds IH];
    intros acc Hnd Hndd Hin Hi Hid; [inversion Hin|].
  cbn in Hndd. apply NoDup_cons in Hndd as [Hd0 Hndd]. cbn [foldl].
  apply elem_of_cons in Hin as [->|Hin].
  - destruct (detailPass_other ds (detailStep acc d0) i (renamed d0 t))
      as [H1 H2].
    + intros d' Hd' Heq. apply Hd0. cbn [renamed id] in Heq.
      rewrite <- Hid, <- Heq. apply (list_elem_of_fmap_2 d_id), Hd'.
    + cbn [snd detailStep]. apply correctEntry_hit; assumption.
    + split; [exact H1|]. cbn [renamed id] in H2. rewrite <- Hid, H2.
      cbn [fst detailStep]. rewrite Hid. apply lookup_insert_eq.
  - assert (Hne : d_id d0 <> id t).
    { intros Heq. apply Hd0. rewrite Heq, Hid.
      apply (list_elem_of_fmap_2 d_id), Hin. }
    apply IH; try assumption.
    + cbn [snd detailStep]. rewrite correctEntry_proj by reflexivity.
      exact Hnd.
    + cbn [snd detailStep]. apply correctEntry_other; assumption.
Qed.

Lemma detailPass_fold (details : list SongDetail) (data0 : list Track) :
  detailPass details data0 = foldl detailStep (∅, data0) details.
Proof. reflexivity. Qed.

(** X15.  With ids that occur once in the list and once in the details, the
    detail lookup gives the track whose id a detail carries the name and the
    first artist of that detail and, when the detail has a picture, its
    cover (the word def for the placeholder picture); id, duration and
    position stay. *)
Theorem applyDetail_corrects_track (details : list SongDetail)
    (data0 : list Track) (d : SongDetail) (i : nat) (t : Track) :
  NoDup (map id data0) -> NoDup (map d_id details) -> d ∈ details ->
  data0 !! i = Some t -> id t = d_id d ->
  applyDetail details data0 !! i
  = Some {| id := id t; songName := d_name d; singerName := head (d_ar d);
            duration := duration t;
            cover := if String.eqb (coverOf d) "" then cover t
                     else Some (coverOf d) |}.
Proof.
  intros Hnd Hndd Hin Hi Hid. unfold applyDetail. rewrite detailPass_fold.
  destruct (detailPass_hit details (∅, data0) d i t Hnd Hndd Hin Hi Hid)
    as [H1 H2].
  change (map ?f ?l) with (f <$> l). rewrite list_lookup_fmap, H1. cbn.
  rewrite <- Hid in H2. unfold withCover. cbn [renamed id]. rewrite H2.
  destruct (String.eqb (coverOf d) ""); reflexivity.
Qed.

Lemma applyDetail_corrects_track_witness :
  applyDetail
    [ {| d_id := 7; d_name := "勇气"; d_ar := ["梁静茹"];
         d_picUrl := "http://p/109951169484091680.jpg" |} ]
    [ example_song;
      {| id := 7; songName := "yongqi"; singerName := None;
         duration := "03:20"; cover := None |} ] !! 1%nat
  = Some {| id := 7; songName := "勇气"; singerName := Some "梁静茹";
            duration := "03:20"; cover := Some "def" |}.
Proof.
  apply (applyDetail_corrects_track
           [ {| d_id := 7; d_name := "勇气"; d_ar := ["梁静茹"];
                d_picUrl := "http://p/109951169484091680.jpg" |} ]
           [ example_song;
             {| id := 7; songName := "yongqi"; singerName := None;
                duration := "03:20"; cover := None |} ]
           {| d_id := 7; d_name := "勇气"; d_ar := ["梁静茹"];
              d_picUrl := "http://p/109951169484091680.jpg" |} 1
           {| id := 7; songName := "yongqi"; singerName := None;
              duration := "03:20"; cover := None |}).
  - apply (bool_decide_unpack _). vm_compute. exact I.
  - apply NoDup_singleton.
  - apply list_elem_of_here.
  - reflexivity.
  - reflexivity.
Defined.

Lemma detailPass_none (details : list SongDetail)
    (acc : gmap Z string * list Track) :
  (forall d, d ∈ details -> d_id d ∉ map id (snd acc)) ->
  snd (foldl detailStep acc details) = snd acc.
Proof.
  revert acc. induction details as [|d ds IH]; intros acc Hall; cbn [foldl];
    [reflexivity|].
  assert (Hd : correctEntry d (snd acc) = snd acc).
  { unfold correctEntry. rewrite findIndex_None; [reflexivity|].
    intros x Hx. apply Z.eqb_neq. intros Heq.
    apply (Hall d (list_elem_of_here _ _)). rewrite <- Heq.
    apply (list_elem_of_fmap_2 id), Hx. }
  rewrite IH; cbn [snd detailStep]; rewrite Hd; [reflexivity|].
  intros d' Hd'. apply Hall, list_elem_of_further, Hd'.
Qed.

(** X16.  Details about ids that are not in the list change nothing: no
    name, no cover.  In particular an empty answer of the detail lookup
    leaves the list as the search built it. *)
Theorem applyDetail_foreign_ids (details : list SongDetail)
    (data0 : list Track) :
  (forall d, d ∈ details -> d_id d ∉ map id data0) ->
  applyDetail details data0 = data0.
Proof.
  intros Hall. unfold applyDetail. rewrite detailPass_fold.
  rewrite (detailPass_none details (∅, data0)) by exact Hall. cbn [snd].
  transitivity (map (fun x : Track => x) data0); [|apply map_id].
  apply map_ext_in. intros t Ht. unfold withCover.
  destruct (fst (foldl detailStep (∅, data0) details) !! id t) as [c|] eqn:E;
    [|reflexivity].
  apply detailPass_img in E as [E | (d & Hd & Hk & _)].
  - cbn in E. rewrite lookup_empty in E. discriminate.
  - exfalso. apply (Hall d Hd). rewrite Hk.
    apply (list_elem_of_fmap_2 id), list_elem_of_In, Ht.
Qed.

Lemma applyDetail_foreign_ids_witness :
  applyDetail
    [ {| d_id := 7; d_name := "勇气"; d_ar := ["梁静茹"]; d_picUrl := "http://p/1.jpg" |} ]
    [example_song]
  = [example_song].
Proof.
  apply (applyDetail_foreign_ids
           [ {| d_id := 7; d_name := "勇气"; d_ar := ["梁静茹"];
                d_picUrl := "http://p/1.jpg" |} ] [example_song]).
  intros d Hd%list_elem_of_singleton Hin%list_elem_of_singleton.
  subst d. discriminate.
Defined.

(** X17.  No track of a merged list carries the placeholder picture as its
    cover: a cover is either the word def or a picture whose address does not
    contain the id of the placeholder, and it is never empty. *)
Theorem mergedList_never_placeholder_cover (cfg : Config)
    (formatTime : Z -> string) (matched : list CloudSong)
    (songs : option (list SearchSong)) (details : list SongDetail)
    (t : Track) (c : string) :
  t ∈ mergedList cfg formatTime matched songs details ->
  cover t = Some c ->
  c <> "" /\ (c = "def" \/ includes c defaultCoverId = false).
Proof.
  unfold mergedList, applyDetail. rewrite detailPass_fold.
  set (data1 := pushCatalog formatTime songs (pushMatched cfg matched)).
  intros Hin Hc. apply list_elem_of_In, in_map_iff in Hin as (t0 & <- & Hin0).
  assert (Hnone : cover t0 = None).
  { assert (Hall : Forall (fun x => x = None)
                     (map cover (snd (foldl detailStep (∅, data1) details)))).
    { rewrite detailPass_proj by reflexivity. cbn [snd]. subst data1.
      unfold pushCatalog, pushMatched. destruct songs as [l|];
        rewrite ?map_app, !map_map; cbn;
        rewrite ?Forall_app; repeat split; apply Forall_fmap, Forall_true;
        reflexivity. }
    rewrite Forall_forall in Hall. apply Hall.
    apply (list_elem_of_fmap_2 cover), list_elem_of_In, Hin0. }
  unfold withCover in Hc.
  destruct (fst (foldl detailStep (∅, data1) details) !! id t0) as [c'|] eqn:E;
    [|congruence].
  destruct (String.eqb_spec c' "") as [->|Hne]; [congruence|].
  cbn in Hc. injection Hc as <-. split; [exact Hne|].
  apply detailPass_img in E as [E | (d & _ & _ & ->)].
  - cbn in E. rewrite lookup_empty in E. discriminate.
  - unfold coverOf. destruct (includes (d_picUrl d) defaultCoverId) eqn:Ei; auto.
Qed.

Lemma mergedList_never_placeholder_cover_witness :
  let songs := [ {| s_id := 7; s_name := "勇气"; s_artists := ["棉子"];
                    s_duration := 200000 |} ] in
  let details := [ {| d_id := 7; d_name := "勇气"; d_ar := ["梁静茹"];
                      d_picUrl := "http://p/109951169484091680.jpg" |} ] in
  let t := {| id := 7; songName := "勇气"; singerName := Some "梁静茹";
              duration := "03:20"; cover := Some "def" |} in
  t ∈ mergedList example_cfg (fun _ => "03:20") [] (Some songs) details /\
  "def" <> "" /\ ("def" = "def" \/ includes "def" defaultCoverId = false).
Proof.
  intros songs details t.
  assert (Hin : t ∈ mergedList example_cfg (fun _ => "03:20") []
                      (Some songs) details) by apply list_elem_of_here.
  split; [exact Hin|].
  exact (mergedList_never_placeholder_cover example_cfg (fun _ => "03:20") []
           (Some songs) details t "def" Hin eq_refl).
Defined.

(** ** Further properties of the delivery *)

Lemma deliver_resolves (cfg : Config) (env : DeliveryEnv)
    (musicExt : JsString) (w : World) :
  fst (deliver cfg env musicExt w) = Returned tt.
Proof.
  unfold deliver, try_catch.
  destruct (bind _ _ w) as [[[]|err] w1]; reflexivity.
Qed.

Lemma resolveTrack_outcome (env : DeliveryEnv) (songInfo : list Track)
    (pickNumber : Z) (isCkExpired : bool) (w : World) :
  (exists err, resolveTrack env songInfo pickNumber isCkExpired w
               = (Raised err, w)) \/
  (exists resolved, resolveTrack env songInfo pickNumber isCkExpired w
                    = (Returned resolved,
                       add_reply (ReplyImg "neteaseMusicInfo") w)).
Proof.
  unfold resolveTrack. destruct (urlResp env) as [|first]; [left; eauto|].
  destruct (js_index songInfo pickNumber); [|left; eauto].
  destruct (wikiResp env); [left; eauto|].
  destruct (_ || _).
  - unfold musicTempApi. destruct (tempResp env); [left; eauto|].
    right. eexists. reflexivity.
  - right. eexists. reflexivity.
Qed.

Lemma neteasePlay_outcome (cfg : Config) (env : DeliveryEnv)
    (songInfo : list Track) (pickNumber : Z) (isCkExpired isCloudSong : bool)
    (w : World) :
  (exists err, neteasePlay cfg env songInfo pickNumber isCkExpired isCloudSong w
               = (Raised err, w)) \/
  (exists musicExt,
      neteasePlay cfg env songInfo pickNumber isCkExpired isCloudSong w
      = deliver cfg env musicExt
          (set_FileSuffix musicExt (add_reply (ReplyImg "neteaseMusicInfo") w))).
Proof.
  unfold neteasePlay.
  destruct (resolveTrack_outcome env songInfo pickNumber isCkExpired w)
    as [[err H] | [resolved H]].
  - left. exists err. unfold bind at 1. rewrite H. reflexivity.
  - right. exists (snd resolved). unfold bind at 1. rewrite H. reflexivity.
Qed.

Lemma deliver_replies (cfg : Config) (env : DeliveryEnv)
    (musicExt : JsString) (w : World) :
  replies (snd (deliver cfg env musicExt w))
  = replies w ++
    match download env with
    | Some path =>
        if negb (cardOk env) && groupFileOk env
           && negb (bool_decide (musicExt = JsStr "mp4")) && isSendVocal cfg
        then [ReplyRecord path] else []
    | None => []
    end.
Proof.
  unfold deliver, afterDownload, downloadAudio, uploadGroupFile,
    checkAndRemoveFile. unfold_m.
  destruct (download env) as [path|]; cbn; [|symmetry; apply app_nil_r].
  destruct (cardOk env); cbn; [symmetry; apply app_nil_r|].
  destruct (groupFileOk env); cbn; [|symmetry; apply app_nil_r].
  destruct (negb _ && _); cbn; [reflexivity | symmetry; apply app_nil_r].
Qed.

(** X18.  A delivery rejects only before it has done anything: when
    [neteasePlay] rejects, no reply was sent, nothing was downloaded and
    [FileSuffix] is as before; once the track is announced every later
    failure (card, download, transfer) is swallowed and it resolves. *)
Theorem neteasePlay_rejects_without_effect (cfg : Config) (env : DeliveryEnv)
    (songInfo : list Track) (pickNumber : Z) (isCkExpired isCloudSong : bool)
    (w : World) :
  let r := neteasePlay cfg env songInfo pickNumber isCkExpired isCloudSong w in
  (exists err, r = (Raised err, w)) \/ fst r = Returned tt.
Proof.
  intros r. subst r.
  destruct (neteasePlay_outcome cfg env songInfo pickNumber isCkExpired
              isCloudSong w) as [[err H] | [musicExt H]]; rewrite H.
  - left. eauto.
  - right. apply deliver_resolves.
Qed.

(** X19.  A delivery that resolves has replied with the announcement and, at
    most, with the voice clip of the downloaded file after it; the clip is
    sent exactly when the card could not be sent, the download succeeded,
    the host took the file, the extension is not mp4 and voice clips are
    enabled. *)
Theorem neteasePlay_replies (cfg : Config) (env : DeliveryEnv)
    (songInfo : list Track) (pickNumber : Z) (isCkExpired isCloudSong : bool)
    (w : World) :
  let r := neteasePlay cfg env songInfo pickNumber isCkExpired isCloudSong w in
  fst r = Returned tt ->
  replies (snd r)
  = replies w ++ ReplyImg "neteaseMusicInfo" ::
    match download env with
    | Some path =>
        if negb (cardOk env) && groupFileOk env
           && negb (bool_decide (FileSuffix (snd r) = JsStr "mp4"))
           && isSendVocal cfg
        then [ReplyRecord path] else []
    | None => []
    end.
Proof.
  intros r. subst r.
  destruct (neteasePlay_outcome cfg env songInfo pickNumber isCkExpired
              isCloudSong w) as [[err H] | [musicExt H]]; rewrite H;
    [discriminate|].
  intros _. rewrite deliver_replies. cbn [replies add_reply set_FileSuffix].
  rewrite <- app_assoc. cbn [app]. do 2 f_equal.
  assert (Hk : keeps FileSuffix (deliver cfg env musicExt)).
  { unfold deliver. apply keeps_try_catch; [|intros; apply keeps_ret].
    apply keeps_bind.
    - unfold downloadAudio. destruct (download env); [|apply keeps_raise].
      apply keeps_bind; [apply keeps_modify; reflexivity|].
      intros; apply keeps_ret.
    - intros path. unfold afterDownload. destruct (negb _); [|apply keeps_ret].
      apply keeps_try_finally.
      + apply keeps_bind.
        * unfold uploadGroupFile. destruct (groupFileOk env);
            [apply keeps_ret | apply keeps_raise].
        * intros _. destruct (_ && _);
            [apply keeps_modify; reflexivity | apply keeps_ret].
      + apply keeps_modify. reflexivity. }
  rewrite Hk. reflexivity.
Qed.

Lemma neteasePlay_replies_witness :
  let r := neteasePlay example_cfg (example_delivery false) [example_song] 0
             true false initial_world in
  replies (snd r) = [ReplyImg "neteaseMusicInfo"; ReplyRecord "/data/9/a-b.mp3"].
Proof.
  exact (neteasePlay_replies example_cfg (example_delivery false)
           [example_song] 0 true false initial_world eq_refl).
Defined.

(** ** Further properties of the upload commands *)

Lemma uploadCloud_without_id (cfg : Config) (a b : string)
    (toGBorTB : Z -> string) (default_retries : nat) (e : Event)
    (card : ShareCard) (obs : string -> nat -> FileObs)
    (posts : nat -> UploadAttempt) (refresh : RefreshEnv) (w : World) :
  sc_id card = None ->
  exists w1,
    files w1 = files w /\ replies w1 = replies w /\
    uploadCloud cfg a b toGBorTB default_retries e card obs posts refresh w
    = (Raised "TypeError", w1).
Proof.
  intros Hid. unfold uploadCloud. rewrite Hid.
  destruct (pickApi_frame cfg a b w) as ([api Hapi] & _ & _ & Hf & _ & Hr).
  unfold bind. destruct (pickApi cfg a b w) as [[x|err] w1];
    cbn in Hapi, Hf, Hr; [|discriminate].
  exists w1. auto.
Qed.

(** X20.  A quoted card in which none of the id patterns matches makes
    [upLoad] return without any effect, while [uploadCloud] rejects with a
    [TypeError]; neither waits for a file, replies or deletes anything. *)
Theorem upload_commands_without_id (cfg : Config) (a b : string)
    (toGBorTB : Z -> string) (default_retries : nat) (e : Event)
    (card : ShareCard) (obs : string -> nat -> FileObs) (accepted : bool)
    (posts : nat -> UploadAttempt) (refresh : RefreshEnv) (w : World)
    (title desc : string) :
  sc_id card = None -> sc_title card = Some title -> sc_desc card = Some desc ->
  upLoad cfg e card obs accepted w = (Returned tt, w) /\
  let r := uploadCloud cfg a b toGBorTB default_retries e card obs posts
             refresh w in
  fst r = Raised "TypeError" /\ files (snd r) = files w /\
  replies (snd r) = replies w.
Proof.
  intros Hid Ht Hd. split.
  - unfold upLoad. rewrite Hid, Ht, Hd. reflexivity.
  - destruct (uploadCloud_without_id cfg a b toGBorTB default_retries e card
                obs posts refresh w Hid) as (w1 & Hf & Hr & Heq).
    rewrite Heq. cbn. auto.
Qed.

Lemma upload_commands_without_id_witness :
  let card := {| sc_id := None; sc_title := Some "y"; sc_desc := Some "x" |} in
  upLoad example_cfg (example_event CmdOther) card example_obs true example_world
  = (Returned tt, example_world) /\
  fst (uploadCloud example_cfg "" "" (fun _ => "") 3 (example_event CmdOther)
         card example_obs (fun _ => PostOk 200 (Some 7) true) example_refresh
         example_world)
  = Raised "TypeError".
Proof.
  intros card.
  destruct (upload_commands_without_id example_cfg "" "" (fun _ => "") 3
              (example_event CmdOther) card example_obs true
              (fun _ => PostOk 200 (Some 7) true) example_refresh example_world "y" "x"
              eq_refl eq_refl eq_refl) as (H1 & H2 & _).
  split; [exact H1 | exact H2].
Defined.

(** X21.  When the watcher finds the file, [upLoad] always resolves; the
    file is removed when the host accepted it and stays when the transfer
    failed, and nothing else changes. *)
Theorem upLoad_removes_file_when_accepted (cfg : Config) (e : Event)
    (card : ShareCard) (obs : string -> nat -> FileObs) (accepted : bool)
    (w : World) (id_ title desc : string) :
  sc_id card = Some id_ -> id_ <> "" ->
  sc_title card = Some title -> sc_desc card = Some desc ->
  let path := getCurDownloadPath cfg e +:+ "/" +:+ desc +:+ "-" +:+ title
              +:+ "." +:+ js_str (FileSuffix w) in
  fst (waitForFile_run (obs path) default_timeoutSeconds) = true ->
  upLoad cfg e card obs accepted w
  = (Returned tt, if accepted then set_files (files w ∖ {[path]}) w else w).
Proof.
  intros Hid Hne Ht Hd path Hwait. unfold upLoad. rewrite Hid, Ht, Hd.
  cbn [default from_option id]. unfold Datatypes.id.
  apply String.eqb_neq in Hne. rewrite Hne.
  rewrite bind_uploadPath. fold path. unfold waitForFile. rewrite Hwait.
  destruct accepted; reflexivity.
Qed.

Lemma upLoad_removes_file_when_accepted_witness :
  upLoad example_cfg (example_event CmdOther) example_card example_obs true
    example_world
  = (Returned tt,
     set_files (files example_world ∖ {[ "/data/9/x-y.flac" ]}) example_world).
Proof.
  refine (upLoad_removes_file_when_accepted example_cfg (example_event CmdOther)
            example_card example_obs true example_world "1" "y" "x"
            eq_refl _ eq_refl eq_refl eq_refl).
  discriminate.
Defined.

Lemma uploadCloud_timeout_run (cfg : Config) (a b : string)
    (toGBorTB : Z -> string) (default_retries : nat) (e : Event)
    (card : ShareCard) (obs : string -> nat -> FileObs)
    (posts : nat -> UploadAttempt) (refresh : RefreshEnv) (w : World)
    (id_ title desc : string) :
  sc_id card = Some id_ -> id_ <> "" ->
  sc_title card = Some title -> sc_desc card = Some desc ->
  let path := getCurDownloadPath cfg e +:+ "/" +:+ desc +:+ "-" +:+ title
              +:+ "." +:+ js_str (FileSuffix w) in
  fst (waitForFile_run (obs path) default_timeoutSeconds) = false ->
  uploadCloud cfg a b toGBorTB default_retries e card obs posts refresh w
  = (Returned tt,
     add_reply (ReplyText ("等待文件下载" +:+ pretty default_timeoutSeconds
                           +:+ "秒超时，上传任务已取消。"))
       (snd (pickApi cfg a b w))).
Proof.
  intros Hid Hne Ht Hd path Hwait. unfold uploadCloud. rewrite Hid, Ht, Hd.
  destruct (pickApi_frame cfg a b w) as ([api Hapi] & _ & _ & _ & Hfs & _).
  unfold bind at 1. destruct (pickApi cfg a b w) as [[x|err] w1];
    cbn in Hapi, Hfs; [|discriminate].
  apply String.eqb_neq in Hne. rewrite Hne.
  rewrite bind_uploadPath, Hfs. fold path. unfold waitForFile.
  rewrite Hwait. reflexivity.
Qed.

(** X22.  When the watcher times out, [uploadCloud] resolves after the one
    reply that reports the timeout: no upload is tried (what the uploads
    would have answered plays no part), the file is not deleted and the
    cached library is not refreshed. *)
Theorem uploadCloud_timeout_uploads_nothing (cfg : Config) (a b : string)
    (toGBorTB : Z -> string) (default_retries : nat) (e : Event)
    (card : ShareCard) (obs : string -> nat -> FileObs)
    (posts posts' : nat -> UploadAttempt) (refresh : RefreshEnv) (w : World)
    (id_ title desc : string) :
  sc_id card = Some id_ -> id_ <> "" ->
  sc_title card = Some title -> sc_desc card = Some desc ->
  let path := getCurDownloadPath cfg e +:+ "/" +:+ desc +:+ "-" +:+ title
              +:+ "." +:+ js_str (FileSuffix w) in
  fst (waitForFile_run (obs path) default_timeoutSeconds) = false ->
  let r := uploadCloud cfg a b toGBorTB default_retries e card obs posts
             refresh w in
  r = uploadCloud cfg a b toGBorTB default_retries e card obs posts' refresh w /\
  fst r = Returned tt /\
  files (snd r) = files w /\
  redis_cloudSongList (snd r) = redis_cloudSongList w /\
  replies (snd r)
  = replies w ++ [ReplyText ("等待文件下载" +:+ pretty default_timeoutSeconds
                             +:+ "秒超时，上传任务已取消。")].
Proof.
  intros Hid Hne Ht Hd path Hwait r. subst r.
  rewrite !(uploadCloud_timeout_run cfg a b toGBorTB default_retries e card
              obs _ refresh w id_ title desc Hid Hne Ht Hd Hwait).
  destruct (pickApi_frame cfg a b w) as (_ & _ & Hc & Hf & _ & Hr).
  cbn. rewrite Hr. auto.
Qed.

Lemma uploadCloud_timeout_uploads_nothing_witness :
  let r := uploadCloud example_cfg "" "" (fun _ => "") 3
             (example_event CmdOther) example_card (fun _ _ => Absent)
             (fun _ => PostOk 200 (Some 7) true) example_refresh example_world in
  fst r = Returned tt /\ files (snd r) = files example_world.
Proof.
  refine (let H := uploadCloud_timeout_uploads_nothing example_cfg "" ""
                     (fun _ => "") 3 (example_event CmdOther) example_card
                     (fun _ _ => Absent) (fun _ => PostOk 200 (Some 7) true)
                     (fun _ => PostFailed) example_refresh example_world
                     "1" "y" "x" eq_refl _ eq_refl eq_refl eq_refl in
          conj (proj1 (proj2 H)) (proj1 (proj2 (proj2 H)))).
  discriminate.
Defined.

(** ** Further properties of the region selector *)

Lemma pickApi_with_flag (cfg : Config) (a b : string) (w : World)
    (flag : RegionFlag) :
  redis_isOversea w = Some flag ->
  pickApi cfg a b w
  = (Returned (if useLocalNeteaseAPI cfg then neteaseCloudAPIServer cfg
               else if os flag then a else b), w).
Proof.
  intros E. unfold pickApi, isOverseasServer. unfold_m.
  rewrite bool_decide_eq_true_2 by (rewrite E; eauto). cbn. rewrite E.
  destruct (useLocalNeteaseAPI cfg); reflexivity.
Qed.

Lemma pickApi_sets_flag (cfg : Config) (a b : string) (w : World) :
  is_Some (redis_isOversea (snd (pickApi cfg a b w))).
Proof.
  destruct (redis_isOversea w) as [flag|] eqn:E.
  - rewrite (pickApi_with_flag cfg a b w flag E). cbn. rewrite E. eauto.
  - unfold pickApi, isOverseasServer. unfold_m.
    rewrite bool_decide_eq_false_2 by (rewrite E; intros [? ?]; discriminate).
    cbn. destruct (useLocalNeteaseAPI cfg); cbn; eauto.
Qed.

(** X23.  Only the first call of [pickApi] on a cache writes: whatever the
    world a call leaves, every later call answers from it without changing
    it. *)
Theorem pickApi_reads_only_after_first_call (cfg : Config) (a b : string)
    (w : World) :
  let w1 := snd (pickApi cfg a b w) in
  exists url, pickApi cfg a b w1 = (Returned url, w1).
Proof.
  intros w1. destruct (pickApi_sets_flag cfg a b w) as [flag E].
  fold w1 in E. rewrite (pickApi_with_flag cfg a b w1 flag E). eauto.
Qed.

(** ** Play by keyword *)

Lemma keeps_songInfo_playSong (cfg : Config) (a b : string)
    (formatTime : Z -> string) (e : Event) (keyword : option string)
    (search : SearchResponse) (detail : DetailResponse) (env : PlayEnv) :
  keeps redis_songInfo (playSong cfg a b formatTime e keyword search detail env).
Proof.
  unfold playSong. destruct (negb _); [apply keeps_ret|].
  destruct (truthy_group e); [|apply keeps_ret].
  apply keeps_bind; [apply keeps_songInfo_pickApi|]. intros _.
  destruct keyword; [|apply keeps_ret].
  destruct search as [|[songs|]];
    [apply keeps_raise | | apply keeps_modify; reflexivity].
  destruct detail as [|details]; [apply keeps_raise|].
  destruct (coverByIndex _ _) as [songInfo'|]; [|apply keeps_raise].
  destruct (head songInfo'); [|apply keeps_raise].
  apply keeps_bind; [apply keeps_songInfo_checkCooike|]. intros isCk.
  apply keeps_detached, keeps_songInfo_neteasePlay.
Qed.

(** X24.  [#播放] works on a list of its own: whatever it meets, the session
    store of the conversations is as before, so a later [#听N] still
    resolves against the last search. *)
Theorem playSong_keeps_sessions (cfg : Config) (a b : string)
    (formatTime : Z -> string) (e : Event) (keyword : option string)
    (search : SearchResponse) (detail : DetailResponse) (env : PlayEnv)
    (w : World) (g : Z) :
  storedSession g
    (snd (playSong cfg a b formatTime e keyword search detail env w))
  = storedSession g w.
Proof.
  unfold storedSession. rewrite keeps_songInfo_playSong. reflexivity.
Qed.

Lemma coverByIndex_nil (details : list SongDetail) :
  coverByIndex details [] ≫= head = None.
Proof. destruct details; reflexivity. Qed.

Lemma playSong_runs (cfg : Config) (a b : string) (formatTime : Z -> string)
    (e : Event) (g : Z) (songKeyWord : string) (details : list SongDetail)
    (env : PlayEnv) (w : World) :
  useNeteaseSongRequest cfg = true -> truthy_group e = Some g ->
  exists w1,
    replies w1 = replies w /\
    playSong cfg a b formatTime e (Some songKeyWord) (SearchOk None)
      (DetailOk details) env w
    = (Returned tt, add_reply (ReplyText "暂未找到你想听的歌哦~") w1) /\
    playSong cfg a b formatTime e (Some songKeyWord) (SearchOk (Some []))
      (DetailOk details) env w
    = (Raised "TypeError", w1).
Proof.
  intros Hon Hg. unfold playSong. rewrite Hon, Hg. cbn [negb].
  destruct (pickApi_frame cfg a b w) as ([api Hapi] & _ & _ & _ & _ & Hr).
  unfold bind. destruct (pickApi cfg a b w) as [[x|err] w1];
    cbn in Hapi, Hr; [|discriminate].
  exists w1. split; [exact Hr|]. split; [reflexivity|].
  cbn [map]. pose proof (coverByIndex_nil details) as Hnil.
  destruct (coverByIndex details []) as [[|t l]|]; cbn in Hnil;
    [reflexivity | discriminate | reflexivity].
Qed.

(** X25.  [#播放] tells a missing [songs] from an empty one: without the
    field the requester gets the "not found" text; with an empty array the
    command rejects with a [TypeError] and the requester gets nothing. *)
Theorem playSong_empty_answer (cfg : Config) (a b : string)
    (formatTime : Z -> string) (e : Event) (g : Z) (songKeyWord : string)
    (details : list SongDetail) (env : PlayEnv) (w : World) :
  useNeteaseSongRequest cfg = true -> truthy_group e = Some g ->
  let missing := playSong cfg a b formatTime e (Some songKeyWord)
                   (SearchOk None) (DetailOk details) env w in
  let empty := playSong cfg a b formatTime e (Some songKeyWord)
                 (SearchOk (Some [])) (DetailOk details) env w in
  fst missing = Returned tt /\
  replies (snd missing) = replies w ++ [ReplyText "暂未找到你想听的歌哦~"] /\
  fst empty = Raised "TypeError" /\
  replies (snd empty) = replies w.
Proof.
  intros Hon Hg missing empty.
  destruct (playSong_runs cfg a b formatTime e g songKeyWord details env w
              Hon Hg) as (w1 & Hr & Hm & He).
  subst missing empty. rewrite Hm, He. cbn. rewrite Hr. auto.
Qed.

Lemma playSong_empty_answer_witness :
  fst (playSong example_cfg "" "" (fun _ => "") (example_event CmdOther)
         (Some "勇气") (SearchOk (Some [])) (DetailOk [])
         {| login := LoginFailed; delivery := example_delivery true |}
         initial_world)
  = Raised "TypeError".
Proof.
  exact (proj1 (proj2 (proj2
           (playSong_empty_answer example_cfg "" "" (fun _ => "")
              (example_event CmdOther) 9 "勇气" []
              {| login := LoginFailed; delivery := example_delivery true |}
              initial_world eq_refl eq_refl)))).
Defined.

(** ** Upload of a group file *)

Lemma retryAxiosReq_files (request : nat -> M unit) (accepted : nat -> bool)
    (retries k : nat) (w : World) :
  (forall i, keeps files (request i)) ->
  (forall i w', accepted i = true -> fst (request i w') = Returned tt) ->
  (forall i w', accepted i = false -> exists err, fst (request i w') = Raised err) ->
  let r := retryAxiosReq request retries k w in
  files (snd r) = files w /\
  ((exists i, (i <= retries)%nat /\ accepted (k + i)%nat = true) ->
   fst r = Returned tt) /\
  ((forall i, (i <= retries)%nat -> accepted (k + i)%nat = false) ->
   exists err, fst r = Raised err).
Proof.
  intros Hkeep Hyes Hno. revert k w.
  induction retries as [|n IH]; intros k w; cbn [retryAxiosReq];
    unfold try_catch;
    pose proof (Hkeep k w) as Hf; pose proof (Hyes k w) as Hok;
    pose proof (Hno k w) as Hko;
    destruct (request k w) as [[[]|err] w1] eqn:E; cbn [fst snd] in *.
  - split; [exact Hf|]. split; [reflexivity|].
    intros Hall. specialize (Hall O (Nat.le_refl _)). rewrite Nat.add_0_r in Hall.
    destruct (Hko Hall) as [? ?]. discriminate.
  - split; [exact Hf|]. split; [|eauto].
    intros (i & Hi & Hacc). assert (i = O) by lia. subst i.
    rewrite Nat.add_0_r in Hacc. specialize (Hok Hacc). discriminate.
  - split; [exact Hf|]. split; [reflexivity|].
    intros Hall. specialize (Hall O (Nat.le_0_l _)). rewrite Nat.add_0_r in Hall.
    destruct (Hko Hall) as [? ?]. discriminate.
  - destruct (IH (S k) w1) as (Hf' & Hok' & Hko').
    split; [congruence|]. split.
    + intros (i & Hi & Hacc). destruct i as [|i].
      * rewrite Nat.add_0_r in Hacc. specialize (Hok Hacc). discriminate.
      * apply Hok'. exists i. split; [lia|].
        replace (S k + i)%nat with (k + S i)%nat by lia. exact Hacc.
    + intros Hall. apply Hko'. intros i Hi.
      replace (S k + i)%nat with (k + S i)%nat by lia. apply Hall. lia.
Qed.

Lemma renamed_then_removed (dir : gset string) (old new : string) :
  (dir ∖ {[new]} ∖ {[old]} ∪ {[new]}) ∖ {[new]} = dir ∖ {[old]} ∖ {[new]}.
Proof.
  apply set_eq. intros x.
  rewrite !elem_of_difference, !elem_of_union, !elem_of_difference,
    !elem_of_singleton.
  tauto.
Qed.

Lemma renamed_left (dir : gset string) (old new : string) :
  dir ∖ {[new]} ∖ {[old]} ∪ {[new]} = dir ∖ {[old]} ∪ {[new]}.
Proof.
  apply set_eq. intros x.
  rewrite !elem_of_union, !elem_of_difference, !elem_of_singleton.
  destruct (decide (x = new)); tauto.
Qed.

Lemma tryUploadDocument_outcome (cfg : Config) (a b : string)
    (toGBorTB : Z -> string) (refresh : RefreshEnv) (attempt : UploadAttempt)
    (w : World) :
  let r := tryUploadDocument cfg a b toGBorTB refresh attempt w in
  files (snd r) = files w /\
  (answered_post attempt = true -> fst r = Returned tt) /\
  (answered_post attempt = false -> exists err, fst r = Raised err).
Proof.
  unfold tryUploadDocument, answered_post. destruct attempt as [|code m]; cbn.
  - split; [reflexivity|]. split; [discriminate | eauto].
  - split; [apply keeps_files_songCloudUpdate|]. split; [reflexivity | discriminate].
Qed.

Lemma getLatestDocument_local (cfg : Config) (a b : string)
    (toGBorTB : Z -> string) (default_retries : nat) (e : Event)
    (cleanPath : string) (split : string -> SplitPath)
    (posts : nat -> UploadAttempt) (refresh : RefreshEnv) (w : World)
    (artist_ title : string) :
  parts (split cleanPath) = Some (artist_, title) ->
  let newFileName := dirPath (split cleanPath) +:+ "/" +:+ title
                     +:+ extension (split cleanPath) in
  cleanPath ∈ files w -> cleanPath <> newFileName ->
  exists w2,
    files w2 = (files w ∖ {[newFileName]} ∖ {[cleanPath]}) ∪ {[newFileName]} /\
    getLatestDocument cfg a b toGBorTB default_retries e (LocalFile cleanPath)
      split posts refresh w
    = bind (retryAxiosReq
              (fun k => tryUploadDocument cfg a b toGBorTB refresh (posts k))
              default_retries O)
        (fun _ => bind (detached (checkAndRemoveFile newFileName))
                    (fun _ => ret None)) w2.
Proof.
  intros Hparts newFileName Hin Hne. unfold getLatestDocument.
  destruct (pickApi_frame cfg a b w) as ([api Hapi] & _ & _ & Hf & _).
  unfold bind at 1. destruct (pickApi cfg a b w) as [[x|err] w1];
    cbn in Hapi, Hf; [|discriminate].
  cbn [locateGroupFile]. unfold bind at 1. cbn [ret].
  rewrite Hparts. cbv beta iota zeta. fold newFileName.
  unfold renameSync, get, modify, ret.
  destruct (decide (newFileName ∈ files w1)) as [Hex|Hex].
  - exists (set_files ((files w1 ∖ {[newFileName]} ∖ {[cleanPath]})
                       ∪ {[newFileName]}) w1).
    split; [cbn [files set_files]; rewrite Hf; reflexivity|].
    unfold bind at 1. cbv beta iota.
    rewrite (bool_decide_eq_true_2 _ Hex).
    unfold bind at 1. cbv beta iota. unfold bind at 1. cbv beta iota.
    unfold bind at 1. cbv beta iota. cbn [files set_files].
    rewrite bool_decide_eq_true_2
      by (apply elem_of_difference; split;
          [rewrite Hf; exact Hin | rewrite elem_of_singleton; exact Hne]).
    reflexivity.
  - exists (set_files ((files w1 ∖ {[cleanPath]}) ∪ {[newFileName]}) w1).
    split; [cbn [files set_files]; rewrite Hf; symmetry; apply renamed_left|].
    unfold bind at 1. cbv beta iota.
    rewrite (bool_decide_eq_false_2 _ Hex).
    unfold bind at 1. cbv beta iota. unfold bind at 1. cbv beta iota.
    unfold bind at 1. cbv beta iota.
    rewrite bool_decide_eq_true_2 by (rewrite Hf; exact Hin).
    reflexivity.
Qed.

(** X26.  With a file name that does not read as artist and title,
    [getLatestDocument] replies with the naming hint and returns true: the
    file is neither renamed nor uploaded nor deleted. *)
Theorem getLatestDocument_rejects_unnamed (cfg : Config) (a b : string)
    (toGBorTB : Z -> string) (default_retries : nat) (e : Event)
    (cleanPath : string) (split : string -> SplitPath)
    (posts : nat -> UploadAttempt) (refresh : RefreshEnv) (w : World) :
  parts (split cleanPath) = None ->
  let r := getLatestDocument cfg a b toGBorTB default_retries e
             (LocalFile cleanPath) split posts refresh w in
  fst r = Returned (Some true) /\
  files (snd r) = files w /\
  redis_cloudSongList (snd r) = redis_cloudSongList w /\
  replies (snd r)
  = replies w ++ [ReplyText "请规范上传文件的命名：歌手-歌名，例如：梁静茹-勇气"].
Proof.
  intros Hparts r.
  assert (Heq : r = (Returned (Some true),
                     add_reply (ReplyText "请规范上传文件的命名：歌手-歌名，例如：梁静茹-勇气")
                       (snd (pickApi cfg a b w)))).
  { subst r. unfold getLatestDocument.
    destruct (pickApi_frame cfg a b w) as ([api Hapi] & _).
    unfold bind at 1. destruct (pickApi cfg a b w) as [[x|err] w1];
      cbn in Hapi; [|discriminate].
    cbn [locateGroupFile]. unfold bind at 1. cbn [ret]. rewrite Hparts.
    reflexivity. }
  rewrite Heq. destruct (pickApi_frame cfg a b w) as (_ & _ & Hc & Hf & _ & Hr).
  cbn. rewrite Hr. auto.
Qed.

Lemma getLatestDocument_rejects_unnamed_witness :
  let split := fun _ : string =>
                 {| dirPath := "/data/9"; extension := ".flac"; parts := None |} in
  fst (getLatestDocument example_cfg "" "" (fun _ => "") 3
         (example_event CmdOther) (LocalFile "/data/9/x-y.flac") split
         (fun _ => PostOk 200 (Some 7) true) example_refresh example_world)
  = Returned (Some true).
Proof.
  intros split.
  exact (proj1 (getLatestDocument_rejects_unnamed example_cfg "" ""
                  (fun _ => "") 3 (example_event CmdOther) "/data/9/x-y.flac"
                  split (fun _ => PostOk 200 (Some 7) true) example_refresh
                  example_world eq_refl)).
Defined.

(** X27.  For a local file with a well-formed name, [getLatestDocument]
    renames it to its title and uploads it; any answered POST counts as a
    success, whatever its code.  After a success neither the original nor the
    renamed file is left; when every upload fails the command rejects and
    the renamed file stays. *)
Theorem getLatestDocument_files (cfg : Config) (a b : string)
    (toGBorTB : Z -> string) (default_retries : nat) (e : Event)
    (cleanPath : string) (split : string -> SplitPath)
    (posts : nat -> UploadAttempt) (refresh : RefreshEnv) (w : World)
    (artist_ title : string) :
  parts (split cleanPath) = Some (artist_, title) ->
  let newFileName := dirPath (split cleanPath) +:+ "/" +:+ title
                     +:+ extension (split cleanPath) in
  cleanPath ∈ files w -> cleanPath <> newFileName ->
  let r := getLatestDocument cfg a b toGBorTB default_retries e
             (LocalFile cleanPath) split posts refresh w in
  ((exists i, (i <= default_retries)%nat /\ answered_post (posts i) = true) ->
   fst r = Returned None /\
   files (snd r) = files w ∖ {[cleanPath]} ∖ {[newFileName]}) /\
  ((forall i, (i <= default_retries)%nat -> answered_post (posts i) = false) ->
   (exists err, fst r = Raised err) /\
   files (snd r) = (files w ∖ {[cleanPath]}) ∪ {[newFileName]}).
Proof.
  intros Hparts newFileName Hin Hne r.
  destruct (getLatestDocument_local cfg a b toGBorTB default_retries e
              cleanPath split posts refresh w artist_ title Hparts Hin Hne)
    as (w2 & Hf2 & Heq).
  fold newFileName in Hf2, Heq. subst r. rewrite Heq. clear Heq.
  destruct (retryAxiosReq_files
              (fun k => tryUploadDocument cfg a b toGBorTB refresh (posts k))
              (fun k => answered_post (posts k)) default_retries O w2)
    as (Hf & Hok & Hko).
  - intros i w'. apply tryUploadDocument_outcome.
  - intros i w'. apply tryUploadDocument_outcome.
  - intros i w'. apply tryUploadDocument_outcome.
  - unfold bind, detached, checkAndRemoveFile, modify, ret.
    destruct (retryAxiosReq _ default_retries O w2) as [[[]|err] w3];
      cbn [fst snd set_files files] in *; split.
    + intros _. split; [reflexivity|]. rewrite Hf, Hf2.
      apply renamed_then_removed.
    + intros Hall. destruct (Hko Hall) as [? ?]. discriminate.
    + intros Hex. specialize (Hok Hex). discriminate.
    + intros _. split; [eauto|]. rewrite Hf, Hf2. apply renamed_left.
Qed.

Lemma getLatestDocument_files_witness :
  let split := fun _ : string =>
                 {| dirPath := "/data/9"; extension := ".flac";
                    parts := Some ("x", "y") |} in
  let r := getLatestDocument example_cfg "" "" (fun _ => "") 3
             (example_event CmdOther) (LocalFile "/data/9/x-y.flac") split
             (fun _ => PostOk 500 None false) example_refresh example_world in
  fst r = Returned None /\
  files (snd r) = files example_world ∖ {[ "/data/9/x-y.flac" ]} ∖ {[ "/data/9/y.flac" ]}.
Proof.
  intros split.
  refine (proj1 (getLatestDocument_files example_cfg "" "" (fun _ => "") 3
                   (example_event CmdOther) "/data/9/x-y.flac" split
                   (fun _ => PostOk 500 None false) example_refresh example_world
                   "x" "y" eq_refl _ _) _).
  - change ("/data/9/x-y.flac" ∈ ({[ "/data/9/x-y.flac" ]} : gset string)).
    apply elem_of_singleton_2. reflexivity.
  - discriminate.
  - exists O. split; [lia | reflexivity].
Defined.

(** ** Translation strategies *)

Lemma isEmpty_false (v : option string) :
  isEmpty v = false -> exists s, v = Some s /\ s <> "".
Proof.
  destruct v as [s|]; cbn; [|discriminate].
  intros H. exists s. split; [reflexivity|]. apply String.eqb_neq, H.
Qed.

Lemma split_comma_nonempty (s : string) : split_comma s <> [].
Proof.
  induction s as [|c s IH]; cbn; [discriminate|].
  destruct (Ascii.eqb c _); [discriminate|].
  destruct (split_comma s); discriminate.
Qed.

(** X28.  [selectStrategy] always returns a strategy: the constructor that
    throws for a missing configuration is only reached with the
    configuration it needs.  A Gemini/OpenAI strategy never comes with an
    empty base URL or key, and the URL list of a Deepl strategy is never
    empty. *)
Theorem selectStrategy_never_throws (config : TransConfig) :
  exists strategy,
    selectStrategy config = Returned strategy /\
    match strategy with
    | TencentTranslateStrategy => True
    | DeeplTranslateStrategy deeplUrls => deeplUrls <> []
    | GeminiOpenAITranslateStrategy baseURL apiKey _ =>
        isEmpty baseURL = false /\ isEmpty apiKey = false
    end.
Proof.
  unfold selectStrategy, new_GeminiOpenAITranslateStrategy,
    new_DeeplTranslateStrategy.
  destruct (isEmpty (xaiBaseURL config)) eqn:E1,
    (isEmpty (xaiApiKey config)) eqn:E2; cbn [negb andb].
  - destruct (isEmpty (deeplApiUrls config)) eqn:E3; cbn [negb andb].
    + destruct (isEmpty (aiBaseURL config)) eqn:E4,
        (isEmpty (aiApiKey config)) eqn:E5; cbn [negb andb];
        eexists; (split; [reflexivity|]); cbn; auto.
    + apply isEmpty_false in E3 as (urls & -> & _). eexists.
      split; [reflexivity|]. destruct (includes urls ",");
        [apply split_comma_nonempty | discriminate].
  - destruct (isEmpty (aiBaseURL config)) eqn:E4,
      (isEmpty (aiApiKey config)) eqn:E5; cbn [negb andb];
      eexists; (split; [reflexivity|]); cbn; auto.
  - eexists. split; [reflexivity|]. exact I.
  - eexists. split; [reflexivity|]. cbn. auto.
Qed.

Lemma join_comma_cons (piece : string) (rest : list string) :
  rest <> [] -> join_comma (piece :: rest) = piece +:+ "," +:+ join_comma rest.
Proof. destruct rest; [contradiction | reflexivity]. Qed.

Lemma join_split_comma (s : string) : join_comma (split_comma s) = s.
Proof.
  induction s as [|c s IH]; [reflexivity|]. cbn [split_comma].
  pose proof (split_comma_nonempty s) as Hn.
  destruct (Ascii.eqb_spec c (Ascii.ascii_of_nat 44)) as [->|Hne].
  - rewrite join_comma_cons by exact Hn. rewrite IH. reflexivity.
  - destruct (split_comma s) as [|piece pieces] eqn:E; [contradiction|].
    destruct pieces as [|piece' pieces].
    + cbn in IH. cbn. congruence.
    + rewrite join_comma_cons by discriminate.
      rewrite join_comma_cons in IH by discriminate.
      rewrite append_cons, IH. reflexivity.
Qed.

Lemma includes_comma_cons (c : Ascii.ascii) (s : string) :
  includes (String c s) ","
  = Ascii.eqb c (Ascii.ascii_of_nat 44) || includes s ",".
Proof.
  cbn [includes]. f_equal. cbn [String.prefix].
  match goal with
  | |- context [Ascii.ascii_dec ?comma c] =>
      destruct (Ascii.ascii_dec comma c) as [<-|Hne]
  end.
  - destruct s; reflexivity.
  - symmetry. apply Ascii.eqb_neq. intros ->. apply Hne. reflexivity.
Qed.

Lemma split_comma_no_comma (s : string) :
  includes s "," = false -> split_comma s = [s].
Proof.
  induction s as [|c s IH]; [reflexivity|].
  rewrite includes_comma_cons. intros [Hc Hs]%orb_false_iff.
  cbn [split_comma]. rewrite Hc, (IH Hs). reflexivity.
Qed.

Lemma split_comma_pieces (s : string) :
  Forall (fun piece => includes piece "," = false) (split_comma s).
Proof.
  induction s as [|c s IH]; [repeat constructor|]. cbn [split_comma].
  destruct (Ascii.eqb c (Ascii.ascii_of_nat 44)) eqn:Ec.
  - constructor; [reflexivity | exact IH].
  - destruct (split_comma s) as [|piece pieces]; [repeat constructor|].
    + rewrite includes_comma_cons, Ec. reflexivity.
    + inversion IH as [|? ? Hp Hps]; subst. constructor; [|exact Hps].
      rewrite includes_comma_cons, Ec. exact Hp.
Qed.

(** X29.  The URL list of a Deepl strategy is the configured string cut at
    its commas, with or without the test for a comma: joined with commas it
    gives the string back, and no URL of the list contains a comma. *)
Theorem new_DeeplTranslateStrategy_urls (config : TransConfig) (urls : string) :
  deeplApiUrls config = Some urls ->
  new_DeeplTranslateStrategy config
  = Returned (DeeplTranslateStrategy (split_comma urls)) /\
  join_comma (split_comma urls) = urls /\
  Forall (fun piece => includes piece "," = false) (split_comma urls).
Proof.
  intros Hu. unfold new_DeeplTranslateStrategy. rewrite Hu. split.
  - destruct (includes urls ",") eqn:E; [reflexivity|].
    rewrite (split_comma_no_comma urls E). reflexivity.
  - split; [apply join_split_comma | apply split_comma_pieces].
Qed.

Lemma new_DeeplTranslateStrategy_urls_witness :
  new_DeeplTranslateStrategy
    {| xaiBaseURL := None; xaiApiKey := None; xaiModel := None;
       deeplApiUrls := Some "http://d1,http://d2"; aiBaseURL := None;
       aiApiKey := None; aiModel := None |}
  = Returned (DeeplTranslateStrategy ["http://d1"; "http://d2"]).
Proof.
  exact (proj1 (new_DeeplTranslateStrategy_urls
                  {| xaiBaseURL := None; xaiApiKey := None; xaiModel := None;
                     deeplApiUrls := Some "http://d1,http://d2";
                     aiBaseURL := None; aiApiKey := None; aiModel := None |}
                  "http://d1,http://d2" eq_refl)).
Defined.
